(** * A shallow embedding of the interactive shell of [main.py]

    The development follows the layout of the program: the redirection
    parser ([RedirectionManager]), the built-in handlers ([CommandHandler]),
    the completion engine ([Completer]) and the read-dispatch loop
    ([Shell]).  Python values are modelled by the Rocq types closest to
    them: [str] is [string] (characters are code points below 256), lists
    are lists, [None]-or-string is [option string], sets are [gset], and
    the host file system is a finite map from path spellings to nodes.
    Exceptions are explicit: pure fallible code returns [result], code with
    effects runs in the state-and-exception monad [M] over the [machine]. *)

From Stdlib Require Import ZArith Ascii String.
From stdpp Require Import base option list strings gmap sets sorting.

Local Open Scope Z_scope.
Local Open Scope stdpp_scope.

(** ** Exceptions and results *)

Inductive exn : Type :=
| IndexError
| TypeError
| ValueError (msg : string)
| SystemExit (code : Z)
| PermissionError
| FileNotFoundError
| IsADirectoryError
| NotADirectoryError
| FileExistsError
| OSError.

Inductive result (A : Type) : Type :=
| Ok (a : A)
| Raise (e : exn).
Arguments Ok {A} a.
Arguments Raise {A} e.

Definition rbind {A B} (r : result A) (k : A → result B) : result B :=
  match r with
  | Ok a => k a
  | Raise e => Raise e
  end.

(** ** Python string and sequence primitives *)

Module Py.

(** [s.startswith(p)] *)
Fixpoint startswith (s p : string) {struct p} : bool :=
  match p, s with
  | EmptyString, _ => true
  | String _ _, EmptyString => false
  | String a p', String b s' => if decide (a = b) then startswith s' p' else false
  end.

(** [s[n:]] for [0 <= n] *)
Fixpoint slice_from (n : nat) (s : string) : string :=
  match n, s with
  | O, _ => s
  | S _, EmptyString => EmptyString
  | S n', String _ s' => slice_from n' s'
  end.

(** [s[:n]] for [0 <= n] *)
Fixpoint slice_to (n : nat) (s : string) : string :=
  match n, s with
  | O, _ => EmptyString
  | S _, EmptyString => EmptyString
  | S n', String a s' => String a (slice_to n' s')
  end.

(** [s.endswith(c)] for a one-character [c] *)
Fixpoint endswith_char (s : string) (c : ascii) : bool :=
  match s with
  | EmptyString => false
  | String a EmptyString => bool_decide (a = c)
  | String _ s' => endswith_char s' c
  end.

(** [c in s] for a one-character [c] *)
Fixpoint contains_char (s : string) (c : ascii) : bool :=
  match s with
  | EmptyString => false
  | String a s' => bool_decide (a = c) || contains_char s' c
  end.

(** [sep.join(ls)] *)
Definition join (sep : string) (ls : list string) : string := String.concat sep ls.

(** [s.split(sep)] for a one-character separator: never the empty list *)
Fixpoint split_go (sep : ascii) (cur : string) (s : string) : list string :=
  match s with
  | EmptyString => [String.rev cur]
  | String a s' =>
      if decide (a = sep) then String.rev cur :: split_go sep EmptyString s'
      else split_go sep (String a cur) s'
  end.
Definition split (sep : ascii) (s : string) : list string := split_go sep EmptyString s.

(** [l[k]] with Python's negative indices; out of range raises [IndexError] *)
Definition getitem {A} (l : list A) (k : Z) : result A :=
  let n := Z.of_nat (length l) in
  let k' := if k <? 0 then k + n else k in
  if (0 <=? k') && (k' <? n) then
    match l !! Z.to_nat k' with
    | Some x => Ok x
    | None => Raise IndexError
    end
  else Raise IndexError.

(** [l[n:]] for [0 <= n] *)
Definition list_from {A} (n : nat) (l : list A) : list A := drop n l.

(** The code points below 256 for which [str.isspace] holds; [s.split()]
    with no argument separates on runs of them. *)
Definition isspace (c : ascii) : bool :=
  let n := nat_of_ascii c in
  bool_decide ((9 ≤ n ≤ 13)%nat ∨ (28 ≤ n ≤ 32)%nat ∨ n = 133%nat ∨ n = 160%nat).

(** [s.split()]: maximal runs of non-space characters *)
Fixpoint words_go (cur : option string) (s : string) : list string :=
  match s with
  | EmptyString => option_list (String.rev <$> cur)
  | String a s' =>
      if isspace a then option_list (String.rev <$> cur) ++ words_go None s'
      else words_go (Some (String a (default EmptyString cur))) s'
  end.
Definition words (s : string) : list string := words_go None s.

(** The small part of Python's dynamic typing that [Completer.complete]
    exercises: [+] and [str.join] on strings, integers and lists. *)
#[warnings="-register-all"]
Inductive value : Type :=
| VStr (s : string)
| VInt (z : Z)
| VList (l : list value).

Definition add (a b : value) : result value :=
  match a, b with
  | VStr s, VStr t => Ok (VStr (s +:+ t))
  | VInt x, VInt y => Ok (VInt (x + y))
  | VList l, VList m => Ok (VList (l ++ m))
  | _, _ => Raise TypeError
  end.

Fixpoint all_str (l : list value) : result (list string) :=
  match l with
  | [] => Ok []
  | VStr s :: l' => rbind (all_str l') (λ r, Ok (s :: r))
  | _ :: _ => Raise TypeError
  end.

(** [sep.join(v)]: a string is iterated character by character *)
Definition join_value (sep : string) (v : value) : result string :=
  match v with
  | VStr s => Ok (join sep ((λ c, String c EmptyString) <$> list_ascii_of_string s))
  | VList l => rbind (all_str l) (λ ss, Ok (join sep ss))
  | VInt _ => Raise TypeError
  end.

End Py.

Inductive mode : Type := ModeW | ModeA.

(** ** shlex.split

    [Shell.run] tokenises with the standard library's [shlex.split], that
    is, a [shlex] lexer in POSIX mode with [whitespace_split] set and no
    comment characters.  [lex] is its [read_token] automaton; the states
    are the values the attribute [state] takes there. *)

Module Shlex.

Inductive state : Type :=
| Blank                            (* state == ' ' *)
| Word                             (* state == 'a' *)
| Quoted (q : ascii)               (* state in quotes *)
| Escaped (escapedstate : state).  (* state in escape *)

Definition whitespace (c : ascii) : bool :=
  bool_decide (c ∈ [" "; "009"; "013"; "010"]%char).
Definition quotes (c : ascii) : bool := bool_decide (c ∈ ["'"; "034"]%char).
Definition escape (c : ascii) : bool := bool_decide (c = "\"%char).
Definition escapedquotes (c : ascii) : bool := bool_decide (c = "034"%char).

Definition nonempty (s : string) : bool := negb (bool_decide (s = EmptyString)).

Definition snoc (token : string) (c : ascii) : string :=
  token +:+ String c EmptyString.

(** The tokens read from [s], starting in state [st] with the local
    [quoted] flag and the characters of the current [token].  A token is
    handed out at a [break]; the next call of [read_token] starts afresh
    in the state left behind. *)
Fixpoint lex (st : state) (quoted : bool) (token : string) (s : string)
  : result (list string) :=
  match s with
  | EmptyString =>
      match st with
      | Blank | Word => Ok (if nonempty token || quoted then [token] else [])
      | Quoted _ => Raise (ValueError "No closing quotation")
      | Escaped _ => Raise (ValueError "No escaped character")
      end
  | String c s' =>
      match st with
      | Blank =>
          if whitespace c then
            if nonempty token || quoted
            then rbind (lex Blank false EmptyString s') (λ r, Ok (token :: r))
            else lex Blank quoted token s'
          else if escape c then lex (Escaped Word) quoted token s'
          else if quotes c then lex (Quoted c) quoted token s'
          else lex Word quoted (String c EmptyString) s'
      | Quoted q =>
          if bool_decide (c = q) then lex Word true token s'
          else if escape c && escapedquotes q then lex (Escaped (Quoted q)) true token s'
          else lex (Quoted q) true (snoc token c) s'
      | Escaped back =>
          match back with
          | Quoted q =>
              if negb (escape c) && negb (bool_decide (c = q))
              then lex back quoted (snoc (snoc token "\"%char) c) s'
              else lex back quoted (snoc token c) s'
          | _ => lex back quoted (snoc token c) s'
          end
      | Word =>
          if whitespace c then
            if nonempty token || quoted
            then rbind (lex Blank false EmptyString s') (λ r, Ok (token :: r))
            else lex Blank quoted token s'
          else if quotes c then lex (Quoted c) quoted token s'
          else if escape c then lex (Escaped Word) quoted token s'
          else lex Word quoted (snoc token c) s'
      end
  end.

Definition split (s : string) : result (list string) :=
  lex Blank false EmptyString s.

End Shlex.

(** ** The machine: environment, file system, terminal, completer cache *)

(** [Completer.matches_cache], a dictionary with the three fixed keys
    ["text"], ["matches"] and ["lcp"]. *)
Record cache : Type := Cache {
  cache_text : string;
  cache_matches : list string;
  cache_lcp : string
}.

(** What the host reports for one path: a regular file (may it be
    executed, may it be written, its content) or a directory (may it be
    listed, may entries be created in it, may it be searched). *)
Inductive node : Type :=
| File (x w : bool) (content : string)
| Dir (r w x : bool).

Inductive stream : Type := Stdout | Stderr.

Record machine : Type := Machine {
  environ_PATH : option string;        (* os.environ.get("PATH") *)
  fs : gmap string node;               (* the file system, by path as spelled *)
  cwd_w : bool;                        (* may entries be created in the working directory *)
  programs : string → list string → result (string * string);
                                       (* what starting an executable raises, or what
                                          it prints on stdout and stderr *)
  tty : list (stream * string);        (* writes that reached the terminal, oldest first *)
  matches_cache : cache                (* the Completer object's cache *)
}.

Definition set_fs (f : gmap string node → gmap string node) (m : machine) : machine :=
  {| environ_PATH := environ_PATH m; fs := f (fs m); cwd_w := cwd_w m;
     programs := programs m; tty := tty m; matches_cache := matches_cache m |}.

Definition set_tty (f : list (stream * string) → list (stream * string)) (m : machine)
  : machine :=
  {| environ_PATH := environ_PATH m; fs := fs m; cwd_w := cwd_w m;
     programs := programs m; tty := f (tty m); matches_cache := matches_cache m |}.

Definition set_cache (c : cache) (m : machine) : machine :=
  {| environ_PATH := environ_PATH m; fs := fs m; cwd_w := cwd_w m;
     programs := programs m; tty := tty m; matches_cache := c |}.

(** Statements run in a state monad over the machine that can raise. *)
Definition M (A : Type) : Type := machine → result A * machine.

Definition ret {A} (a : A) : M A := λ m, (Ok a, m).
Definition raise {A} (e : exn) : M A := λ m, (Raise e, m).
Definition bind {A B} (c : M A) (k : A → M B) : M B :=
  λ m, match c m with
       | (Ok a, m') => k a m'
       | (Raise e, m') => (Raise e, m')
       end.
Definition lift {A} (r : result A) : M A := λ m, (r, m).
Definition reads {A} (f : machine → A) : M A := λ m, (Ok (f m), m).
Definition modify (f : machine → machine) : M unit := λ m, (Ok tt, f m).

Notation "x <- c ;; k" := (bind c (λ x, k))
  (at level 100, c at next level, right associativity).
Notation "c ;; k" := (bind c (λ _, k))
  (at level 100, right associativity).

(** [try: body finally: cleanup] *)
Definition try_finally {A} (body : M A) (cleanup : M unit) : M A :=
  λ m, match body m with
       | (Ok a, m') => match cleanup m' with
                       | (Ok _, m'') => (Ok a, m'')
                       | (Raise e, m'') => (Raise e, m'')
                       end
       | (Raise e, m') => match cleanup m' with
                          | (Ok _, m'') => (Raise e, m'')
                          | (Raise e', m'') => (Raise e', m'')
                          end
       end.

(** [sys.stdout.write(s)] and [print(s, file=sys.stderr)] on the terminal *)
Definition tty_write (st : stream) (s : string) : M unit :=
  modify (set_tty (λ t, t ++ [(st, s)])).

Definition newline : string := String "010" EmptyString.

(** [print(s)] *)
Definition print (s : string) : M unit := tty_write Stdout (s +:+ newline).

(** Truth value of a [None]-or-string: [None] and the empty string are false. *)
Definition truthy (o : option string) : option string :=
  match o with
  | Some s => if bool_decide (s = EmptyString) then None else Some s
  | None => None
  end.

(** ** The host operations the program calls ([os], [os.path], [open])

    The host is modelled as far as the program observes it.  A path is
    looked up as it is spelled: the model neither normalises paths nor
    follows links, and the permissions of a node stand for what the host
    answers for the user running the shell. *)

Module Os.

Definition sep : ascii := "/".
Definition pathsep : ascii := ":".

Fixpoint all_sep (s : string) : bool :=
  match s with
  | EmptyString => true
  | String c s' => bool_decide (c = sep) && all_sep s'
  end.

(** [s.rstrip('/')] *)
Fixpoint rstrip_sep (s : string) : string :=
  match s with
  | EmptyString => EmptyString
  | String c s' =>
      match rstrip_sep s' with
      | EmptyString => if bool_decide (c = sep) then EmptyString else String c EmptyString
      | r => String c r
      end
  end.

(** [s.rfind('/') + 1] *)
Fixpoint after_last_sep (s : string) : nat :=
  match s with
  | EmptyString => O
  | String c s' =>
      match after_last_sep s' with
      | O => if bool_decide (c = sep) then 1%nat else O
      | S k => S (S k)
      end
  end.

(** [os.path.split(p)] *)
Definition path_split (p : string) : string * string :=
  let k := after_last_sep p in
  let head := Py.slice_to k p in
  let tail := Py.slice_from k p in
  (if negb (bool_decide (head = EmptyString)) && negb (all_sep head)
   then rstrip_sep head else head, tail).

(** [os.path.dirname(p)] *)
Definition path_dirname (p : string) : string := fst (path_split p).

(** [os.path.join(a, b)] *)
Definition path_join (a b : string) : string :=
  if Py.startswith b (String sep EmptyString) then b
  else if bool_decide (a = EmptyString) || Py.endswith_char a sep then a +:+ b
  else a +:+ String sep b.

(** The node a path names; the empty path names nothing. *)
Definition stat (m : machine) (p : string) : option node :=
  if bool_decide (p = EmptyString) then None else fs m !! p.

Definition path_exists (m : machine) (p : string) : bool :=
  bool_decide (is_Some (stat m p)).

Definition path_isdir (m : machine) (p : string) : bool :=
  match stat m p with Some (Dir _ _ _) => true | _ => false end.

Definition path_isfile (m : machine) (p : string) : bool :=
  match stat m p with Some (File _ _ _) => true | _ => false end.

(** [os.access(p, os.X_OK)] *)
Definition access_x (m : machine) (p : string) : bool :=
  match stat m p with
  | Some (File x _ _) => x
  | Some (Dir _ _ x) => x
  | None => false
  end.

(** A directory entry name: not empty, no separator, neither [.] nor [..]. *)
Definition entry_name (n : string) : bool :=
  negb (bool_decide (n = EmptyString)) && negb (Py.contains_char n sep)
  && negb (bool_decide (n = ".")) && negb (bool_decide (n = "..")).

(** [k] without the prefix [p], when [k] starts with [p] *)
Fixpoint strip_prefix (p k : string) {struct p} : option string :=
  match p, k with
  | EmptyString, _ => Some k
  | String _ _, EmptyString => None
  | String a p', String b k' => if decide (a = b) then strip_prefix p' k' else None
  end.

(** The names [n] for which [d/n] exists. *)
Definition entries (m : machine) (d : string) : list string :=
  omap (λ kv, match strip_prefix (path_join d EmptyString) (fst kv) with
              | Some n => if entry_name n then Some n else None
              | None => None
              end)
       (map_to_list (fs m)).

(** [os.listdir(d)] *)
Definition listdir (m : machine) (d : string) : result (list string) :=
  match stat m d with
  | Some (Dir true _ _) => Ok (entries m d)
  | Some (Dir false _ _) => Raise PermissionError
  | Some (File _ _ _) => Raise NotADirectoryError
  | None => Raise FileNotFoundError
  end.

(** The directory in which the last component of [p] lives; a path
    without separator lives in the working directory. *)
Definition parent_node (m : machine) (p : string) : option node :=
  let d := path_dirname p in
  if bool_decide (d = EmptyString) then Some (Dir true (cwd_w m) true) else stat m d.

(** The character no path may hold. *)
Definition nul : ascii := "000".

(** What creating the entry [p] raises, if anything. *)
Definition create_error (m : machine) (p : string) : option exn :=
  if bool_decide (p = EmptyString) then Some FileNotFoundError
  else if Py.contains_char p nul then Some (ValueError "embedded null byte")
  else match parent_node m p with
       | Some (Dir _ true _) => None
       | Some (Dir _ false _) => Some PermissionError
       | Some (File _ _ _) => Some NotADirectoryError
       | None => Some FileNotFoundError
       end.

(** [os.mkdir(p)] *)
Definition mkdir (p : string) : M unit :=
  λ m, match stat m p with
       | Some _ => (Raise FileExistsError, m)
       | None =>
           match create_error m p with
           | Some e => (Raise e, m)
           | None => (Ok tt, set_fs (insert p (Dir true true true)) m)
           end
       end.

(** The body of [os.makedirs(name, exist_ok=True)], with [recur] for the
    recursive call on the head of the path. *)
Definition makedirs_body (recur : string → M unit) (name : string) : M unit :=
  let (head0, tail0) := path_split name in
  let (head, tail) :=
    if bool_decide (tail0 = EmptyString) then path_split head0 else (head0, tail0) in
  let finish : M unit :=
    λ m, match mkdir name m with
         | (Raise e, m') => if path_isdir m' name then (Ok tt, m') else (Raise e, m')
         | r => r
         end in
  λ m,
    if negb (bool_decide (head = EmptyString)) && negb (bool_decide (tail = EmptyString))
       && negb (path_exists m head)
    then
      match recur head m with
      | (Raise FileExistsError, m') =>
          if bool_decide (tail = ".") then (Ok tt, m') else finish m'
      | (Raise e, m') => (Raise e, m')
      | (Ok _, m') => if bool_decide (tail = ".") then (Ok tt, m') else finish m'
      end
    else finish m.

(** The recursion is on a strictly shorter head, so [len(name)] levels
    are enough; [fuel] only makes it structural. *)
Fixpoint makedirs_go (fuel : nat) (name : string) : M unit :=
  makedirs_body (match fuel with
                 | O => λ _, ret tt
                 | S fuel' => makedirs_go fuel'
                 end) name.

Definition makedirs (name : string) : M unit :=
  makedirs_go (String.length name) name.

(** A file object: the path it was opened on and the mode. *)
Definition handle : Type := string * mode.

(** [open(p, mode)] for the modes ["w"] and ["a"].  A name that ends in a
    separator names a directory, so no regular file is created under it. *)
Definition open (p : string) (md : mode) : M handle :=
  λ m, match stat m p with
       | Some (File x true c) =>
           (Ok (p, md), match md with
                        | ModeW => set_fs (insert p (File x true EmptyString)) m
                        | ModeA => m
                        end)
       | Some (File _ false _) => (Raise PermissionError, m)
       | Some (Dir _ _ _) => (Raise IsADirectoryError, m)
       | None =>
           match create_error m p with
           | Some PermissionError =>
               (Raise (if Py.endswith_char p sep then IsADirectoryError
                       else PermissionError), m)
           | Some e => (Raise e, m)
           | None =>
               if Py.endswith_char p sep then (Raise IsADirectoryError, m)
               else (Ok (p, md), set_fs (insert p (File false true EmptyString)) m)
           end
       end.

(** [h.write(data)], the one write the program makes through a file
    object: opened with ["a"] it writes at the end of the file, opened with
    ["w"] at its start, over what is there.  The write is taken to
    succeed. *)
Definition write (h : handle) (data : string) : M unit :=
  modify (set_fs (λ f, match f !! h.1 with
                       | Some (File x w c) =>
                           <[h.1 := File x w
                                      match h.2 with
                                      | ModeA => c +:+ data
                                      | ModeW => data +:+ Py.slice_from (String.length data) c
                                      end]> f
                       | _ => f
                       end)).

End Os.

(** ** RedirectionManager *)

Module RedirectionManager.

(** The loop variables of [parse_redirection]; the five that are returned
    form the result tuple. *)
Record vars : Type := Vars {
  i : nat;
  cmd_parts : list string;
  stdout_file : option string;
  stdout_mode : mode;
  stderr_file : option string;
  stderr_mode : mode
}.

Definition initial : vars :=
  {| i := 0; cmd_parts := []; stdout_file := None; stdout_mode := ModeW;
     stderr_file := None; stderr_mode := ModeW |}.

(** [parts[k]], raising [IndexError] out of range (the index is never
    negative here) *)
Definition at_index (parts : list string) (k : nat) : result string :=
  match parts !! k with
  | Some w => Ok w
  | None => Raise IndexError
  end.

(** One iteration of the [while] body. *)
Definition body (parts : list string) (v : vars) : result vars :=
  rbind (at_index parts (i v)) (λ w,
    if bool_decide (w ∈ [">"; "1>"]) then
      rbind (at_index parts (i v + 1)) (λ t,
        Ok {| i := i v + 2; cmd_parts := cmd_parts v;
              stdout_file := Some t; stdout_mode := ModeW;
              stderr_file := stderr_file v; stderr_mode := stderr_mode v |})
    else if bool_decide (w ∈ [">>"; "1>>"]) then
      rbind (at_index parts (i v + 1)) (λ t,
        Ok {| i := i v + 2; cmd_parts := cmd_parts v;
              stdout_file := Some t; stdout_mode := ModeA;
              stderr_file := stderr_file v; stderr_mode := stderr_mode v |})
    else if bool_decide (w = "2>") then
      rbind (at_index parts (i v + 1)) (λ t,
        Ok {| i := i v + 2; cmd_parts := cmd_parts v;
              stdout_file := stdout_file v; stdout_mode := stdout_mode v;
              stderr_file := Some t; stderr_mode := ModeW |})
    else if bool_decide (w = "2>>") then
      rbind (at_index parts (i v + 1)) (λ t,
        Ok {| i := i v + 2; cmd_parts := cmd_parts v;
              stdout_file := stdout_file v; stdout_mode := stdout_mode v;
              stderr_file := Some t; stderr_mode := ModeA |})
    else
      Ok {| i := i v + 1; cmd_parts := cmd_parts v ++ [w];
            stdout_file := stdout_file v; stdout_mode := stdout_mode v;
            stderr_file := stderr_file v; stderr_mode := stderr_mode v |}).

(** [while i < len(parts): body].  Every iteration advances [i], so
    [len(parts)] iterations are enough; [fuel] only makes the recursion
    structural. *)
Fixpoint loop (fuel : nat) (parts : list string) (v : vars) : result vars :=
  match fuel with
  | O => Ok v
  | S fuel' =>
      if decide (i v < length parts)%nat then
        rbind (body parts v) (loop fuel' parts)
      else Ok v
  end.

Definition parse_redirection (parts : list string) : result vars :=
  loop (length parts) parts initial.

(** [open_for_write(filename, mode)] *)
Definition open_for_write (filename : string) (md : mode) : M Os.handle :=
  let parent := Os.path_dirname filename in
  (if negb (bool_decide (parent = EmptyString)) then
     ex <- reads (λ m, Os.path_exists m parent) ;;
     if negb ex then Os.makedirs parent else ret tt
   else ret tt) ;;
  Os.open filename md.

End RedirectionManager.


(** ** Shell.find_executable

    A static method of [Shell]; it stands before [CommandHandler] because
    [handle_type] calls it. *)

Definition search_path (m : machine) : list string :=
  Py.split Os.pathsep (default EmptyString (environ_PATH m)).

Fixpoint find_in (m : machine) (dirs : list string) (program : string) : option string :=
  match dirs with
  | [] => None
  | directory :: dirs' =>
      let full_path := Os.path_join directory program in
      if Os.path_isfile m full_path && Os.access_x m full_path then Some full_path
      else find_in m dirs' program
  end.

Definition find_executable (m : machine) (program : string) : option string :=
  find_in m (search_path m) program.

(** ** CommandHandler *)

Module CommandHandler.
Section with_builtins.
Variable builtins : list string.

Definition handle_exit (parts : list string) : M bool :=
  p0 <- lift (Py.getitem parts 0) ;;
  if bool_decide (p0 = "exit") then raise (SystemExit 0) else ret false.

Definition handle_echo (parts : list string)
    (stdout_file : option string) (stdout_mode : mode)
    (stderr_file : option string) (stderr_mode : mode) : M bool :=
  p0 <- lift (Py.getitem parts 0) ;;
  if negb (bool_decide (p0 = "echo")) then ret false
  else
    let output := Py.join " " (drop 1 parts) in
    match truthy stdout_file with
    | Some f =>
        out_file <- RedirectionManager.open_for_write f stdout_mode ;;
        Os.write out_file (output +:+ newline)
    | None => print output
    end ;;
    match truthy stderr_file with
    | Some f => _ <- RedirectionManager.open_for_write f stderr_mode ;; ret tt
    | None => ret tt
    end ;;
    ret true.

Definition handle_type (parts : list string)
    (stdout_file : option string) (stdout_mode : mode) : M bool :=
  p0 <- lift (Py.getitem parts 0) ;;
  if negb (bool_decide (p0 = "type")) || bool_decide (length parts ≤ 1)%nat then ret false
  else
    cmd_name <- lift (Py.getitem parts 1) ;;
    output <-
      (if bool_decide (cmd_name ∈ builtins) then ret (cmd_name +:+ " is a shell builtin")
       else
         full_path <- reads (λ m, find_executable m cmd_name) ;;
         match truthy full_path with
         | Some fp => ret (cmd_name +:+ " is " +:+ fp)
         | None => ret (cmd_name +:+ " not found")
         end) ;;
    match truthy stdout_file with
    | Some f =>
        file <- RedirectionManager.open_for_write f stdout_mode ;;
        Os.write file (output +:+ newline)
    | None => print output
    end ;;
    ret true.

End with_builtins.
End CommandHandler.

(** ** Completer *)

Module Completer.

Definition bell : string := String "007" EmptyString.

(** [min(len(s) for s in matches)] for a non-empty list *)
Definition min_len (first : string) (others : list string) : nat :=
  foldr (λ s k, Nat.min (String.length s) k) (String.length first) others.

(** [all(s[i] == matches[0][i] for s in matches)]; the loop guard keeps
    [i] below every length, so each index exists. *)
Definition agree_at (matches : list string) (first : string) (i : nat) : bool :=
  forallb (λ s, bool_decide (String.get i s = String.get i first)) matches.

(** [while i < min_len and all(...): i += 1], which ends within [min_len]
    iterations. *)
Fixpoint lcp_loop (fuel : nat) (matches : list string) (first : string)
    (bound i : nat) : nat :=
  match fuel with
  | O => i
  | S fuel' =>
      if bool_decide (i < bound)%nat && agree_at matches first i
      then lcp_loop fuel' matches first bound (i + 1)
      else i
  end.

Definition longest_common_prefix (matches : list string) : string :=
  match matches with
  | [] => EmptyString
  | first :: others =>
      let bound := min_len first others in
      Py.slice_to (lcp_loop bound matches first bound 0) first
  end.

(** [sorted(s)] for a set of strings *)
Definition sorted (s : gset string) : list string :=
  merge_sort String.le (elements s).

Section with_builtins.
Variable builtins : list string.

(** The names of one search-path directory added to [external]. *)
Definition scan (m : machine) (text : string) (external : gset string)
    (dir_path : string) : result (gset string) :=
  if Os.path_isdir m dir_path then
    match Os.listdir m dir_path with
    | Ok names =>
        Ok (foldl (λ ext f,
                     let full := Os.path_join dir_path f in
                     if Py.startswith f text && Os.access_x m full
                     then ext ∪ {[f]} else ext)
                  external names)
    | Raise PermissionError => Ok external
    | Raise e => Raise e
    end
  else Ok external.

Fixpoint scan_all (m : machine) (text : string) (external : gset string)
    (dirs : list string) : result (gset string) :=
  match dirs with
  | [] => Ok external
  | dir_path :: dirs' =>
      rbind (scan m text external dir_path) (λ ext, scan_all m text ext dirs')
  end.

Definition compute_matches (text : string) : M unit :=
  external <- (λ m, (scan_all m text ∅ (search_path m), m)) ;;
  let builtin_matches := filter (λ b, Py.startswith b text = true) builtins in
  let all_matches := sorted (external ∪ list_to_set builtin_matches) in
  let lcp := longest_common_prefix all_matches in
  modify (set_cache {| cache_text := text; cache_matches := all_matches;
                       cache_lcp := lcp |}).

Definition complete (text : string) (state : Z) : M (option string) :=
  cached <- reads (λ m, cache_text (matches_cache m)) ;;
  (if bool_decide (state = 0) || negb (bool_decide (text = cached))
   then compute_matches text else ret tt) ;;
  matches <- reads (λ m, cache_matches (matches_cache m)) ;;
  lcp <- reads (λ m, cache_lcp (matches_cache m)) ;;
  match matches with
  | [] => tty_write Stdout bell ;; ret None
  | [only] => ret (Some (Py.slice_from (String.length text) only +:+ " "))
  | _ =>
      if bool_decide (state = 0) then
        if bool_decide (String.length text < String.length lcp)%nat
        then ret (Some (Py.slice_from (String.length text) lcp))
        else tty_write Stdout bell ;; ret None
      else if bool_decide (state - 1 < Z.of_nat (length matches)) then
        picked <- lift (Py.getitem matches state) ;;
        let tail := Py.list_from (String.length text) [Py.VInt (state - 1)] in
        sum <- lift (Py.add (Py.VStr picked) (Py.VList tail)) ;;
        joined <- lift (Py.join_value " " sum) ;;
        ret (Some joined)
      else ret None
  end.

End with_builtins.

(** The cache a new [Completer] starts with. *)
Definition initial_cache : cache :=
  {| cache_text := EmptyString; cache_matches := []; cache_lcp := EmptyString |}.

End Completer.

(** ** Shell *)

Module Shell.

Definition builtins : list string := ["echo"; "type"; "exit"].

(** What a program prints goes to the file object given for the stream,
    or to the terminal. *)
Definition deliver (st : stream) (handle : option Os.handle) (data : string) : M unit :=
  match handle with
  | Some h => Os.write h data
  | None => tty_write st data
  end.

(** [subprocess.run(parts, executable=full_path, stdout=..., stderr=...)]:
    the host fails to start the program, and the call raises, or the
    program runs and prints. *)
Definition subprocess_run (parts : list string) (full_path : string)
    (stdout_handle stderr_handle : option Os.handle) : M unit :=
  out <- (λ m, (programs m full_path parts, m)) ;;
  deliver Stdout stdout_handle (fst out) ;;
  deliver Stderr stderr_handle (snd out).

Definition run_external (parts : list string)
    (stdout_file stderr_file : option string) (stdout_mode stderr_mode : mode)
  : M unit :=
  p0 <- lift (Py.getitem parts 0) ;;
  full_path <- reads (λ m, find_executable m p0) ;;
  match truthy full_path with
  | None =>
      match truthy stderr_file with
      | Some f =>
          err_file <- RedirectionManager.open_for_write f stdout_mode ;;
          Os.write err_file (p0 +:+ ": command not found" +:+ newline)
      | None => tty_write Stderr (p0 +:+ ": command not found" +:+ newline)
      end
  | Some fp =>
      try_finally
        (stdout_handle <-
           match truthy stdout_file with
           | Some f => h <- RedirectionManager.open_for_write f stdout_mode ;; ret (Some h)
           | None => ret None
           end ;;
         stderr_handle <-
           match truthy stderr_file with
           | Some f => h <- RedirectionManager.open_for_write f stderr_mode ;; ret (Some h)
           | None => ret None
           end ;;
         subprocess_run parts fp stdout_handle stderr_handle)
        (ret tt)
  end.

(** Everything [run] does with one non-blank line. *)
Definition dispatch (command : string) : M unit :=
  parts <- lift (Shlex.split command) ;;
  r <- lift (RedirectionManager.parse_redirection parts) ;;
  let cmd_parts := RedirectionManager.cmd_parts r in
  let stdout_file := RedirectionManager.stdout_file r in
  let stdout_mode := RedirectionManager.stdout_mode r in
  let stderr_file := RedirectionManager.stderr_file r in
  let stderr_mode := RedirectionManager.stderr_mode r in
  b <- CommandHandler.handle_exit cmd_parts ;;
  if b : bool then ret tt else
  b <- CommandHandler.handle_echo cmd_parts stdout_file stdout_mode stderr_file stderr_mode ;;
  if b : bool then ret tt else
  b <- CommandHandler.handle_type builtins cmd_parts stdout_file stdout_mode ;;
  if b : bool then ret tt else
  run_external cmd_parts stdout_file stderr_file stdout_mode stderr_mode.

(** [run()], on the lines that [input] will deliver before end of input.
    [input] writes the prompt; [EOFError] ends the loop after a newline.
    While a line is typed the line editor may call [Completer.complete];
    these requests are no part of [run]: [complete] is modelled on its
    own, and a sequence of requests by [serve] below. *)
Fixpoint run (lines : list string) : M unit :=
  tty_write Stdout "$ " ;;
  match lines with
  | [] => print EmptyString
  | command :: rest =>
      match Py.words command with
      | [] => run rest
      | _ :: _ => dispatch command ;; run rest
      end
  end.

End Shell.

(** ** The redirection grammar, as the specification words it

    A parsed line is a sequence of items: a plain word, or an operator with
    the one word after it.  The command vector is the plain words in order;
    a stream's target is that of the last operator for the stream. *)

Inductive operator : Type :=
| OutW | OutW1      (* >   1>  *)
| OutA | OutA1      (* >>  1>> *)
| ErrW | ErrA.      (* 2>  2>> *)

Definition token (op : operator) : string :=
  match op with
  | OutW => ">" | OutW1 => "1>" | OutA => ">>" | OutA1 => "1>>"
  | ErrW => "2>" | ErrA => "2>>"
  end.

Definition op_stream (op : operator) : stream :=
  match op with
  | OutW | OutW1 | OutA | OutA1 => Stdout
  | ErrW | ErrA => Stderr
  end.

Definition op_mode (op : operator) : mode :=
  match op with
  | OutW | OutW1 | ErrW => ModeW
  | OutA | OutA1 | ErrA => ModeA
  end.

(** The operator a word spells, if any. *)
Definition classify (w : string) : option operator :=
  if bool_decide (w = ">") then Some OutW
  else if bool_decide (w = "1>") then Some OutW1
  else if bool_decide (w = ">>") then Some OutA
  else if bool_decide (w = "1>>") then Some OutA1
  else if bool_decide (w = "2>") then Some ErrW
  else if bool_decide (w = "2>>") then Some ErrA
  else None.

Inductive item : Type :=
| Plain (w : string)
| Redirect (op : operator) (target : string).

Definition item_words (it : item) : list string :=
  match it with
  | Plain w => [w]
  | Redirect op target => [token op; target]
  end.

Definition words_of (items : list item) : list string :=
  items ≫= item_words.

Definition item_ok (it : item) : Prop :=
  match it with
  | Plain w => classify w = None
  | Redirect _ _ => True
  end.

Definition well_formed (items : list item) : Prop := Forall item_ok items.

Definition command_vector (items : list item) : list string :=
  omap (λ it, match it with Plain w => Some w | Redirect _ _ => None end) items.

Definition targets (st : stream) (items : list item) : list (string * mode) :=
  omap (λ it, match it with
              | Redirect op target =>
                  match st, op_stream op with
                  | Stdout, Stdout | Stderr, Stderr => Some (target, op_mode op)
                  | _, _ => None
                  end
              | Plain _ => None
              end) items.

Definition last_target (st : stream) (items : list item) : option (string * mode) :=
  last (targets st items).

(** The result the specification gives for a sequence of items. *)
Definition expected (items : list item) : RedirectionManager.vars :=
  {| RedirectionManager.i := length (words_of items);
     RedirectionManager.cmd_parts := command_vector items;
     RedirectionManager.stdout_file := fst <$> last_target Stdout items;
     RedirectionManager.stdout_mode := default ModeW (snd <$> last_target Stdout items);
     RedirectionManager.stderr_file := fst <$> last_target Stderr items;
     RedirectionManager.stderr_mode := default ModeW (snd <$> last_target Stderr items) |}.

(** The left-to-right reading of a word list as items; the second
    component is an operator left without a target at the very end. *)
Fixpoint itemize (parts : list string) : list item * option operator :=
  match parts with
  | [] => ([], None)
  | w :: rest =>
      match classify w with
      | None => let (its, d) := itemize rest in (Plain w :: its, d)
      | Some op =>
          match rest with
          | [] => ([], Some op)
          | target :: rest' =>
              let (its, d) := itemize rest' in (Redirect op target :: its, d)
          end
      end
  end.

(** What one iteration of the parser loop does with one item. *)
Definition advance (v : RedirectionManager.vars) (it : item) : RedirectionManager.vars :=
  let (i, cmd, so, sm, se, em) := v in
  match it with
  | Plain w => RedirectionManager.Vars (i + 1) (cmd ++ [w]) so sm se em
  | Redirect op target =>
      match op_stream op with
      | Stdout => RedirectionManager.Vars (i + 2) cmd (Some target) (op_mode op) se em
      | Stderr => RedirectionManager.Vars (i + 2) cmd so sm (Some target) (op_mode op)
      end
  end.

(** ** Prefixes, as the glossary words them *)

Definition is_prefix (p s : string) : Prop := ∃ r, s = p +:+ r.

Definition common_prefix (p : string) (l : list string) : Prop :=
  Forall (is_prefix p) l.

(** The longest string that is a prefix of every string of [l]. *)
Definition is_longest_common_prefix (p : string) (l : list string) : Prop :=
  common_prefix p l ∧ ∀ q, common_prefix q l → is_prefix q p.

(** ** The candidates of a completion, as the specification words them *)

(** [n] is a built-in name starting with [text]. *)
Definition builtin_match (builtins : list string) (text n : string) : Prop :=
  n ∈ builtins ∧ Py.startswith n text = true.

(** [n] is an entry with execute permission of some directory of the
    search path that can be listed. *)
Definition executable_entry (m : machine) (n : string) : Prop :=
  ∃ d names, d ∈ search_path m ∧ Os.listdir m d = Ok names ∧ n ∈ names ∧
             Os.access_x m (Os.path_join d n) = true.

(** [n] is such an entry and starts with [text]. *)
Definition listed (m : machine) (text n : string) : Prop :=
  executable_entry m n ∧ Py.startswith n text = true.

(** [n] is an executable on the search path, as the resolution of
    commands tests it: a regular file with execute permission in some
    directory of the search path. *)
Definition on_search_path (m : machine) (n : string) : Prop :=
  ∃ d, d ∈ search_path m ∧ Os.path_isfile m (Os.path_join d n) = true ∧
       Os.access_x m (Os.path_join d n) = true.

(** Every cached candidate starts with the cached prefix. *)
Definition cache_coherent (c : cache) : Prop :=
  Forall (is_prefix (cache_text c)) (cache_matches c).

(** The candidate list a recomputation for [text] caches. *)
Definition candidates (builtins : list string) (m : machine) (text : string)
  : list string :=
  cache_matches (matches_cache (Completer.compute_matches builtins text m).2).

(** The machine after the first statement of [complete]: the cache is
    recomputed on request 0 and on a new prefix, and kept otherwise. *)
Definition consulted (builtins : list string) (text : string) (state : Z)
    (m : machine) : machine :=
  if bool_decide (state = 0) || negb (bool_decide (text = cache_text (matches_cache m)))
  then (Completer.compute_matches builtins text m).2 else m.

(** The terminal bell is rung. *)
Definition rings (m : machine) : machine :=
  set_tty (λ t, t ++ [(Stdout, Completer.bell)]) m.

(** ** The read-dispatch loop, as the specification words it *)

(** The prompt has been written. *)
Definition prompted (m : machine) : machine :=
  set_tty (λ t, t ++ [(Stdout, "$ ")]) m.

(** A malformed line and the exception it raises: the tokenizer fails on
    its quoting, or its words end in an operator that has no target. *)
Inductive malformed : string → exn → Prop :=
| unterminated command msg :
    Shlex.split command = Raise (ValueError msg) →
    malformed command (ValueError msg)
| dangling command items op :
    well_formed items →
    Shlex.split command = Ok (words_of items ++ [token op]) →
    malformed command IndexError.

(** A command vector that is left to [run_external]: its first word is
    neither [exit] nor [echo], and [type] only without an argument. *)
Definition external (p0 : string) (args : list string) : Prop :=
  p0 ≠ "exit" ∧ p0 ≠ "echo" ∧ (p0 = "type" → args = []).

(** The redirection targets a dispatch opens.  [opens r m f md m1]: the
    dispatch of the parsed line [r], begun in the machine [m], calls
    [open_for_write] on the target [f] with the mode [md] when the machine
    is [m1].  [echo] opens its stdout target, writes, and then opens its
    stderr target; [type] with an argument opens its stdout target; a
    command that does not resolve opens its stderr target, with the mode
    recorded for stdout; a command that resolves opens its stdout target
    and then its stderr target. *)
Inductive opens (r : RedirectionManager.vars) (m : machine)
  : string → mode → machine → Prop :=
| echo_opens_stdout args f :
    RedirectionManager.cmd_parts r = "echo" :: args →
    truthy (RedirectionManager.stdout_file r) = Some f →
    opens r m f (RedirectionManager.stdout_mode r) m
| echo_opens_stderr_after_file args g h m1 f :
    RedirectionManager.cmd_parts r = "echo" :: args →
    truthy (RedirectionManager.stdout_file r) = Some g →
    RedirectionManager.open_for_write g (RedirectionManager.stdout_mode r) m = (Ok h, m1) →
    truthy (RedirectionManager.stderr_file r) = Some f →
    opens r m f (RedirectionManager.stderr_mode r)
      (Os.write h (Py.join " " args +:+ newline) m1).2
| echo_opens_stderr_after_print args f :
    RedirectionManager.cmd_parts r = "echo" :: args →
    truthy (RedirectionManager.stdout_file r) = None →
    truthy (RedirectionManager.stderr_file r) = Some f →
    opens r m f (RedirectionManager.stderr_mode r) (print (Py.join " " args) m).2
| type_opens_stdout name more f :
    RedirectionManager.cmd_parts r = "type" :: name :: more →
    truthy (RedirectionManager.stdout_file r) = Some f →
    opens r m f (RedirectionManager.stdout_mode r) m
| unresolved_opens_stderr p0 args f :
    RedirectionManager.cmd_parts r = p0 :: args → external p0 args →
    truthy (find_executable m p0) = None →
    truthy (RedirectionManager.stderr_file r) = Some f →
    opens r m f (RedirectionManager.stdout_mode r) m
| resolved_opens_stdout p0 args full f :
    RedirectionManager.cmd_parts r = p0 :: args → external p0 args →
    truthy (find_executable m p0) = Some full →
    truthy (RedirectionManager.stdout_file r) = Some f →
    opens r m f (RedirectionManager.stdout_mode r) m
| resolved_opens_stderr_after_stdout p0 args full g h m1 f :
    RedirectionManager.cmd_parts r = p0 :: args → external p0 args →
    truthy (find_executable m p0) = Some full →
    truthy (RedirectionManager.stdout_file r) = Some g →
    RedirectionManager.open_for_write g (RedirectionManager.stdout_mode r) m = (Ok h, m1) →
    truthy (RedirectionManager.stderr_file r) = Some f →
    opens r m f (RedirectionManager.stderr_mode r) m1
| resolved_opens_stderr_alone p0 args full f :
    RedirectionManager.cmd_parts r = p0 :: args → external p0 args →
    truthy (find_executable m p0) = Some full →
    truthy (RedirectionManager.stdout_file r) = None →
    truthy (RedirectionManager.stderr_file r) = Some f →
    opens r m f (RedirectionManager.stderr_mode r) m.

(** The loop survives [command]: after it, the remaining lines are run as
    they would be from some machine. *)
Definition survives (command : string) (rest : list string) (m : machine) : Prop :=
  ∃ m', Shell.run (command :: rest) m = Shell.run rest m'.

(** A string of blanks only. *)
Fixpoint blank (s : string) : bool :=
  match s with
  | EmptyString => true
  | String c s' => Py.isspace c && blank s'
  end.

(** ** Machines for the examples *)

Definition silent : string → list string → result (string * string) :=
  λ _ _, Ok (EmptyString, EmptyString).

(** No search path and an empty, writable working directory. *)
Definition bare : machine :=
  {| environ_PATH := None; fs := ∅; cwd_w := true; programs := silent;
     tty := []; matches_cache := Completer.initial_cache |}.

(** A search path of one directory that holds the program [top]. *)
Definition host : machine :=
  {| environ_PATH := Some "/usr/bin";
     fs := {[ "/usr/bin" := Dir true false true;
              "/usr/bin/top" := File true false "ELF" ]};
     cwd_w := true; programs := silent;
     tty := []; matches_cache := Completer.initial_cache |}.

(** As [host], with the program [toplevel] next to [top]. *)
Definition wide : machine :=
  {| environ_PATH := Some "/usr/bin";
     fs := {[ "/usr/bin" := Dir true false true;
              "/usr/bin/top" := File true false "ELF";
              "/usr/bin/toplevel" := File true false "ELF" ]};
     cwd_w := true; programs := silent;
     tty := []; matches_cache := Completer.initial_cache |}.


(** A working directory with a file [out.txt] written earlier. *)
Definition logged : machine :=
  {| environ_PATH := None;
     fs := {[ "out.txt" := File false true ("earlier" +:+ newline) ]};
     cwd_w := true; programs := silent;
     tty := []; matches_cache := Completer.initial_cache |}.

(** As [logged], with a program [top] that prints a warning on stderr. *)
Definition noisy : machine :=
  {| environ_PATH := Some "/usr/bin";
     fs := {[ "/usr/bin" := Dir true false true;
              "/usr/bin/top" := File true false "ELF";
              "out.txt" := File false true ("earlier" +:+ newline) ]};
     cwd_w := true;
     programs := λ _ _, Ok (EmptyString, "warning" +:+ newline);
     tty := []; matches_cache := Completer.initial_cache |}.

(** As [host], where [top] is no program the host can start. *)
Definition broken : machine :=
  {| environ_PATH := Some "/usr/bin";
     fs := {[ "/usr/bin" := Dir true false true;
              "/usr/bin/top" := File true false "text" ]};
     cwd_w := true; programs := λ _ _, Raise OSError;
     tty := []; matches_cache := Completer.initial_cache |}.

(** Two directories, each with a program, in the one order of the search
    path and in the other with a repetition; [b] holds a [top] of its own. *)
Definition two_dirs (path : string) : machine :=
  {| environ_PATH := Some path;
     fs := {[ "/a" := Dir true false true; "/a/top" := File true false "A";
              "/b" := Dir true false true; "/b/tac" := File true false "B";
              "/b/top" := File true false "B" ]};
     cwd_w := true; programs := silent;
     tty := []; matches_cache := Completer.initial_cache |}.

(** A search-path directory that may be searched but not listed. *)
Definition unlistable : machine :=
  {| environ_PATH := Some "/opt/bin";
     fs := {[ "/opt/bin" := Dir false false true;
              "/opt/bin/foo" := File true false "ELF" ]};
     cwd_w := true; programs := silent;
     tty := []; matches_cache := Completer.initial_cache |}.


(** As [host], with a subdirectory [tools] next to [top]. *)
Definition nested : machine :=
  {| environ_PATH := Some "/usr/bin";
     fs := {[ "/usr/bin" := Dir true false true;
              "/usr/bin/top" := File true false "ELF";
              "/usr/bin/tools" := Dir true false true ]};
     cwd_w := true; programs := silent;
     tty := []; matches_cache := Completer.initial_cache |}.

(** [directory] holds a regular file [program] that may be executed: the
    test of [find_executable]. *)
Definition resolves_in (m : machine) (program directory : string) : bool :=
  Os.path_isfile m (Os.path_join directory program)
  && Os.access_x m (Os.path_join directory program).

(** ** Changes of the machine *)

(** Everything but the file system is as before. *)
Definition same_host (m m' : machine) : Prop :=
  environ_PATH m' = environ_PATH m ∧ cwd_w m' = cwd_w m ∧ programs m' = programs m ∧
  tty m' = tty m ∧ matches_cache m' = matches_cache m.

(** Moreover, what existed still exists unchanged. *)
Definition grown (m m' : machine) : Prop :=
  same_host m m' ∧ ∀ p n, fs m !! p = Some n → fs m' !! p = Some n.

(** The search path, the programs and the completer's cache are as before. *)
Definition same_session (m m' : machine) : Prop :=
  environ_PATH m' = environ_PATH m ∧ cwd_w m' = cwd_w m ∧ programs m' = programs m ∧
  matches_cache m' = matches_cache m.

(** The file system, the search path and the programs are as before. *)
Definition same_files (m m' : machine) : Prop :=
  fs m' = fs m ∧ environ_PATH m' = environ_PATH m ∧ cwd_w m' = cwd_w m ∧
  programs m' = programs m.

(** ** The cache over a session of completion requests *)

(** What [compute_matches] establishes for the cache: the candidates start
    with the cached prefix, are sorted without duplicates, and the cached
    LCP is the one of the cached candidates. *)
Definition cache_sound (c : cache) : Prop :=
  cache_coherent c ∧
  cache_lcp c = Completer.longest_common_prefix (cache_matches c) ∧
  StronglySorted String.le (cache_matches c) ∧ NoDup (cache_matches c).

(** The machine after a sequence of completion requests; an exception of
    one request does not keep the line editor from asking again. *)
Definition serve (builtins : list string) (requests : list (string * Z))
    (m : machine) : machine :=
  foldl (λ m q, (Completer.complete builtins q.1 q.2 m).2) m requests.

(** The result of the parser on words without any operator. *)
Definition untouched (parts : list string) : RedirectionManager.vars :=
  {| RedirectionManager.i := length parts;
     RedirectionManager.cmd_parts := parts;
     RedirectionManager.stdout_file := None;
     RedirectionManager.stdout_mode := ModeW;
     RedirectionManager.stderr_file := None;
     RedirectionManager.stderr_mode := ModeW |}.

(** * Properties *)

(** ** The redirection parser *)

Section parse_redirection.
Import RedirectionManager.

Lemma classify_token op : classify (token op) = Some op.
Proof. by destruct op. Qed.

Lemma classify_Some w op : classify w = Some op → w = token op.
Proof.
  unfold classify. repeat case_bool_decide; intros; simplify_eq; done.
Qed.

Lemma classify_None w :
  classify w = None →
  (w ∉ [">"; "1>"]) ∧ (w ∉ [">>"; "1>>"]) ∧ w ≠ "2>" ∧ w ≠ "2>>".
Proof.
  unfold classify. repeat case_bool_decide; try done.
  intros _. rewrite !elem_of_cons, elem_of_nil. tauto.
Qed.

Lemma loop_done fuel parts v :
  (length parts ≤ i v)%nat → loop fuel parts v = Ok v.
Proof. intros. destruct fuel; simpl; [done|]. case_decide; [lia|done]. Qed.

Lemma loop_step fuel parts v :
  (i v < length parts)%nat →
  loop (S fuel) parts v = rbind (body parts v) (loop fuel parts).
Proof. intros. simpl. case_decide; [done|lia]. Qed.

Lemma body_item pre it suf v :
  item_ok it → i v = length pre →
  body (pre ++ item_words it ++ suf) v = Ok (advance v it).
Proof.
  intros Hok Hi. destruct v as [i0 cmd so sm se em]; simpl in *; subst i0.
  unfold body, at_index; simpl.
  destruct it as [w|op t]; simpl in *.
  - rewrite list_lookup_middle by done. simpl.
    destruct (classify_None _ Hok) as (? & ? & ? & ?).
    by rewrite !bool_decide_false.
  - rewrite list_lookup_middle by done. simpl.
    replace (pre ++ token op :: t :: suf) with ((pre ++ [token op]) ++ t :: suf)
      by by rewrite <- app_assoc.
    rewrite list_lookup_middle by (rewrite length_app; simpl; lia).
    by destruct op.
Qed.

Lemma body_dangling pre op v :
  i v = length pre → body (pre ++ [token op]) v = Raise IndexError.
Proof.
  intros Hi. unfold body, at_index.
  rewrite Hi, (list_lookup_middle pre [] (token op)) by done. simpl.
  rewrite lookup_ge_None_2 by (rewrite length_app; simpl; lia).
  by destruct op.
Qed.

Lemma advance_index v it : i (advance v it) = (i v + length (item_words it))%nat.
Proof. destruct v, it as [|op ?]; simpl; [done|]. by destruct (op_stream op). Qed.

Lemma loop_items items : ∀ pre suf v fuel,
  well_formed items → i v = length pre →
  loop (length items + fuel) (pre ++ words_of items ++ suf) v
  = loop fuel (pre ++ words_of items ++ suf) (foldl advance v items).
Proof.
  induction items as [|it items IH]; intros pre suf v fuel Hwf Hi; [done|].
  apply Forall_cons in Hwf as [Hit Hwf].
  unfold words_of in *. rewrite bind_cons, <- app_assoc.
  change (length (it :: items) + fuel)%nat with (S (length items + fuel)).
  rewrite loop_step.
  2:{ rewrite Hi, !length_app. destruct it; simpl; lia. }
  rewrite body_item by done. simpl.
  specialize (IH (pre ++ item_words it) suf (advance v it) fuel Hwf).
  rewrite <- !app_assoc in IH. apply IH.
  rewrite advance_index, length_app. lia.
Qed.

Lemma targets_snoc st items it :
  targets st (items ++ [it]) = targets st items ++ targets st [it].
Proof. apply omap_app. Qed.

Lemma foldl_advance_expected items : foldl advance initial items = expected items.
Proof.
  induction items as [|it items IH] using rev_ind; [done|].
  rewrite foldl_snoc, IH. unfold expected, last_target, command_vector, words_of.
  rewrite !targets_snoc, bind_app, omap_app, length_app. simpl.
  destruct it as [w|op t]; simpl.
  - rewrite !app_nil_r. done.
  - rewrite app_nil_r. destruct op; simpl; rewrite ?app_nil_r, ?last_snoc; simpl;
      f_equal; lia.
Qed.

Lemma length_words_of items : (length items ≤ length (words_of items))%nat.
Proof.
  induction items as [|it items IH]; [done|].
  unfold words_of in *. rewrite bind_cons, length_app. destruct it; simpl; lia.
Qed.

Lemma loop_words items fuel :
  well_formed items → (length (words_of items) ≤ fuel)%nat →
  loop fuel (words_of items) initial = Ok (expected items).
Proof.
  intros Hwf Hfuel. pose proof (length_words_of items) as Hlen.
  replace fuel with (length items + (fuel - length items))%nat by lia.
  pose proof (loop_items items [] [] initial (fuel - length items) Hwf eq_refl) as H.
  rewrite app_nil_l, app_nil_r in H. rewrite H, foldl_advance_expected.
  apply loop_done. done.
Qed.

Lemma loop_dangling items op fuel :
  well_formed items → (length (words_of items) + 1 ≤ fuel)%nat →
  loop fuel (words_of items ++ [token op]) initial = Raise IndexError.
Proof.
  intros Hwf Hfuel. pose proof (length_words_of items) as Hlen.
  replace fuel with (length items + S (fuel - length items - 1))%nat by lia.
  pose proof (loop_items items [] [token op] initial
                (S (fuel - length items - 1)) Hwf eq_refl) as H.
  rewrite !app_nil_l in H. rewrite H, foldl_advance_expected.
  rewrite loop_step by (rewrite length_app; simpl; lia).
  by rewrite body_dangling.
Qed.

Lemma parse_items items :
  well_formed items → parse_redirection (words_of items) = Ok (expected items).
Proof. intros Hwf. by apply loop_words. Qed.

Lemma parse_dangling items op :
  well_formed items → parse_redirection (words_of items ++ [token op]) = Raise IndexError.
Proof.
  intros Hwf. apply loop_dangling; [done|]. rewrite length_app. simpl. lia.
Qed.

Lemma words_of_cons it items : words_of (it :: items) = item_words it ++ words_of items.
Proof. done. Qed.

Lemma itemize_spec n : ∀ parts, (length parts ≤ n)%nat →
  well_formed (itemize parts).1 ∧
  parts = words_of (itemize parts).1 ++ from_option (λ op, [token op]) [] (itemize parts).2.
Proof.
  induction n as [|n IH]; intros parts Hn.
  { destruct parts; [|simpl in Hn; lia]. split; [constructor|done]. }
  destruct parts as [|w rest]; [split; [constructor|done]|].
  simpl in Hn. simpl. destruct (classify w) as [op|] eqn:Hw.
  - apply classify_Some in Hw as ->.
    destruct rest as [|t rest]; [split; [constructor|done]|].
    simpl in Hn. destruct (IH rest ltac:(lia)) as [Hwf Heq].
    destruct (itemize rest) as [its d]. cbn [fst snd] in *. split.
    + by constructor.
    + rewrite words_of_cons. cbn [item_words app]. by rewrite Heq at 1.
  - destruct (IH rest ltac:(lia)) as [Hwf Heq].
    destruct (itemize rest) as [its d]. cbn [fst snd] in *. split.
    + by constructor.
    + rewrite words_of_cons. cbn [item_words app]. by rewrite Heq at 1.
Qed.

(** The loop of the parser ends by its own condition: more fuel than the
    number of words changes nothing. *)
Lemma loop_enough_fuel parts k :
  loop (length parts + k) parts initial = parse_redirection parts.
Proof.
  destruct (itemize_spec (length parts) parts) as [Hwf Heq]; [done|].
  destruct (itemize parts) as [items [op|]]; simpl in Hwf, Heq; subst parts.
  - rewrite parse_dangling by done. apply loop_dangling; [done|].
    rewrite length_app. simpl. lia.
  - rewrite app_nil_r, parse_items by done. apply loop_words; [done|lia].
Qed.

(** C5. The parser reads its words as items, from left to right: plain
    words go to the command vector in their order, an operator and the
    word after it are taken out, and a stream's target and mode are those
    of the last operator for that stream, wherever the operators stand.
    Every word list is such a sequence of items, possibly followed by one
    operator that has no word after it; only then does the parser raise
    [IndexError]. *)
Theorem parse_redirection_reads_items :
  (∀ items, well_formed items →
     parse_redirection (words_of items) = Ok (expected items)) ∧
  (∀ parts, ∃ items, well_formed items ∧
     (parts = words_of items ∨
      ∃ op, parts = words_of items ++ [token op] ∧
            parse_redirection parts = Raise IndexError)).
Proof.
  split; [apply parse_items|].
  intros parts. destruct (itemize_spec (length parts) parts) as [Hwf Heq]; [done|].
  exists (itemize parts).1. split; [done|].
  destruct (itemize parts).2 as [op|]; simpl in Heq.
  - right. exists op. split; [done|]. rewrite Heq. by apply parse_dangling.
  - left. by rewrite app_nil_r in Heq.
Qed.

Lemma parse_redirection_reads_items_witness :
  well_formed [Plain "ls"; Redirect OutW "a"; Plain "-l"; Redirect ErrA "e";
               Redirect OutA1 "b"] ∧
  parse_redirection ["ls"; ">"; "a"; "-l"; "2>>"; "e"; "1>>"; "b"]
  = Ok {| i := 8; cmd_parts := ["ls"; "-l"];
          stdout_file := Some "b"; stdout_mode := ModeA;
          stderr_file := Some "e"; stderr_mode := ModeA |}.
Proof.
  split.
  - repeat constructor.
  - apply (proj1 parse_redirection_reads_items
             [Plain "ls"; Redirect OutW "a"; Plain "-l"; Redirect ErrA "e";
              Redirect OutA1 "b"]).
    repeat constructor.
Defined.

Lemma parse_ok_items parts r :
  parse_redirection parts = Ok r →
  ∃ items, well_formed items ∧ parts = words_of items ∧ r = expected items.
Proof.
  intros H. destruct (itemize_spec (length parts) parts) as [Hwf Heq]; [done|].
  destruct (itemize parts) as [items [op|]]; simpl in Hwf, Heq; subst parts.
  - by rewrite parse_dangling in H.
  - rewrite app_nil_r in *. rewrite parse_items in H by done.
    exists items. split; [done|]. split; [done|]. congruence.
Qed.

Lemma parse_raise_items parts e :
  parse_redirection parts = Raise e →
  ∃ items op, well_formed items ∧ parts = words_of items ++ [token op].
Proof.
  intros H. destruct (itemize_spec (length parts) parts) as [Hwf Heq]; [done|].
  destruct (itemize parts) as [items [op|]]; simpl in Hwf, Heq; subst parts.
  - by exists items, op.
  - rewrite app_nil_r in *. by rewrite parse_items in H.
Qed.

End parse_redirection.

(** ** Strings *)

Section strings.

Lemma app_cons a s t : String a s +:+ t = String a (s +:+ t).
Proof. done. Qed.


Lemma app_empty_r s : s +:+ EmptyString = s.
Proof. induction s as [|a s IH]; [done|]. by rewrite app_cons, IH. Qed.

Lemma slice_from_empty n : Py.slice_from n EmptyString = EmptyString.
Proof. by destruct n. Qed.


Lemma length_app_str s t :
  String.length (s +:+ t) = (String.length s + String.length t)%nat.
Proof. induction s as [|a s IH]; [done|]. rewrite app_cons. simpl. by rewrite IH. Qed.

Lemma startswith_is_prefix s p : Py.startswith s p = true ↔ is_prefix p s.
Proof.
  revert s. induction p as [|a p IH]; intros s; simpl.
  - split; [intros _; by exists s|done].
  - destruct s as [|b s]; [split; [done|by intros [r ?]]|].
    case_decide as Hab.
    + subst b. rewrite IH. split; intros [r Hr]; exists r.
      * by rewrite app_cons, <- Hr.
      * rewrite app_cons in Hr. by simplify_eq.
    + split; [done|]. intros [r Hr]. rewrite app_cons in Hr. by simplify_eq.
Qed.

Lemma startswith_empty s : Py.startswith s EmptyString = true.
Proof. by destruct s. Qed.

Lemma slice_split n s : s = Py.slice_to n s +:+ Py.slice_from n s.
Proof.
  revert s. induction n as [|n IH]; intros [|a s]; simpl; try done.
  by rewrite app_cons, <- IH.
Qed.

Lemma slice_from_app p r : Py.slice_from (String.length p) (p +:+ r) = r.
Proof. induction p as [|a p IH]; [done|]. by rewrite app_cons. Qed.

Lemma slice_to_app p r : Py.slice_to (String.length p) (p +:+ r) = p.
Proof. induction p as [|a p IH]; [by destruct r|]. rewrite app_cons. simpl. by rewrite IH. Qed.

Lemma slice_to_prefix n s : is_prefix (Py.slice_to n s) s.
Proof. exists (Py.slice_from n s). apply slice_split. Qed.

Lemma length_slice_to n s : (n ≤ String.length s)%nat → String.length (Py.slice_to n s) = n.
Proof.
  revert s. induction n as [|n IH]; intros [|a s] Hn; simpl in *; try done; try lia.
  rewrite IH; [done|lia].
Qed.

Lemma is_prefix_length p s : is_prefix p s → (String.length p ≤ String.length s)%nat.
Proof. intros [r ->]. rewrite length_app_str. lia. Qed.

Lemma is_prefix_slice p s : is_prefix p s → p = Py.slice_to (String.length p) s.
Proof. intros [r ->]. by rewrite slice_to_app. Qed.

Lemma slice_to_le k n s : (k ≤ n)%nat → is_prefix (Py.slice_to k s) (Py.slice_to n s).
Proof.
  revert n s. induction k as [|k IH]; intros n s Hk; simpl.
  { by exists (Py.slice_to n s). }
  destruct n as [|n]; [lia|]. destruct s as [|a s]; simpl; [by exists EmptyString|].
  destruct (IH n s ltac:(lia)) as [r Hr]. exists r. by rewrite app_cons, <- Hr.
Qed.

Lemma get_app_l j p r :
  (j < String.length p)%nat → String.get j (p +:+ r) = String.get j p.
Proof.
  revert j. induction p as [|a p IH]; intros j Hj; simpl in Hj; [lia|].
  rewrite app_cons. destruct j; simpl; [done|]. apply IH. lia.
Qed.

Lemma slice_to_ext k s t :
  (k ≤ String.length s)%nat → (k ≤ String.length t)%nat →
  (∀ j, (j < k)%nat → String.get j s = String.get j t) →
  Py.slice_to k s = Py.slice_to k t.
Proof.
  revert s t. induction k as [|k IH]; intros s t Hs Ht Hget; [done|].
  destruct s as [|a s], t as [|b t]; simpl in *; try lia.
  pose proof (Hget O ltac:(lia)) as H0. simpl in H0. simplify_eq.
  f_equal. apply IH; [lia..|]. intros j Hj. apply (Hget (S j)). lia.
Qed.

End strings.

(** ** Os.makedirs: the recursion ends *)

Section makedirs.

Lemma length_rstrip_sep s : (String.length (Os.rstrip_sep s) ≤ String.length s)%nat.
Proof.
  induction s as [|c s IH]; simpl; [done|].
  destruct (Os.rstrip_sep s); [case_bool_decide|]; simpl in *; lia.
Qed.

Lemma length_slices k s :
  (String.length (Py.slice_to k s) + String.length (Py.slice_from k s))%nat
  = String.length s.
Proof. by rewrite <- length_app_str, <- slice_split. Qed.

Lemma path_split_length p head tail :
  Os.path_split p = (head, tail) →
  (String.length head + String.length tail ≤ String.length p)%nat.
Proof.
  unfold Os.path_split. intros H. simplify_eq.
  pose proof (length_slices (Os.after_last_sep p) p).
  pose proof (length_rstrip_sep (Py.slice_to (Os.after_last_sep p) p)).
  destruct (_ && _); lia.
Qed.

Lemma makedirs_body_ext r1 r2 name m :
  (∀ head m', (String.length head < String.length name)%nat → r1 head m' = r2 head m') →
  Os.makedirs_body r1 name m = Os.makedirs_body r2 name m.
Proof.
  intros Hr. unfold Os.makedirs_body.
  destruct (Os.path_split name) as [head0 tail0] eqn:H0.
  apply path_split_length in H0.
  assert (∃ head tail,
            (if bool_decide (tail0 = EmptyString) then Os.path_split head0
             else (head0, tail0)) = (head, tail) ∧
            (String.length head + String.length tail ≤ String.length name)%nat)
    as (head & tail & -> & Hht).
  { case_bool_decide.
    - destruct (Os.path_split head0) as [head tail] eqn:H1.
      apply path_split_length in H1. exists head, tail. split; [done|lia].
    - exists head0, tail0. split; [done|lia]. }
  destruct (negb (bool_decide (head = EmptyString))
            && negb (bool_decide (tail = EmptyString))
            && negb (Os.path_exists m head)) eqn:Hc; [|done].
  rewrite Hr; [done|].
  apply andb_true_iff in Hc as [Hc _]. apply andb_true_iff in Hc as [_ Ht].
  destruct tail; [done|]. simpl in Hht. lia.
Qed.

(** More fuel than the length of the name changes nothing. *)
Lemma makedirs_go_fuel fuel : ∀ name m,
  (String.length name ≤ fuel)%nat →
  Os.makedirs_go (S fuel) name m = Os.makedirs_go fuel name m.
Proof.
  induction fuel as [|fuel IH]; intros name m Hlen.
  - apply makedirs_body_ext. intros; lia.
  - apply makedirs_body_ext. intros head m' Hh. apply IH. lia.
Qed.

Lemma makedirs_enough_fuel name m k :
  Os.makedirs_go (String.length name + k) name m = Os.makedirs name m.
Proof.
  unfold Os.makedirs. induction k as [|k IH]; [by rewrite Nat.add_0_r|].
  rewrite Nat.add_succ_r, makedirs_go_fuel by lia. done.
Qed.

End makedirs.

(** ** Completer.longest_common_prefix *)

Section longest_common_prefix.
Import Completer.

Lemma agree_at_true matches first i :
  agree_at matches first i = true ↔
  ∀ s, s ∈ matches → String.get i s = String.get i first.
Proof.
  unfold agree_at. induction matches as [|s0 matches IH]; simpl.
  - split; [|done]. intros _ s Hs. by apply elem_of_nil in Hs.
  - rewrite andb_true_iff, IH, bool_decide_eq_true. split.
    + intros [H0 H] s [->|Hs]%elem_of_cons; auto.
    + intros H. split; [|intros s Hs]; apply H; [left|by right].
Qed.

Lemma min_len_le first others s :
  s ∈ first :: others → (min_len first others ≤ String.length s)%nat.
Proof.
  unfold min_len. induction others as [|o others IH]; simpl.
  - intros ->%list_elem_of_singleton. done.
  - intros [->|[->|Hs]%elem_of_cons]%elem_of_cons.
    + etrans; [apply Nat.le_min_r|]. apply IH. left.
    + apply Nat.le_min_l.
    + etrans; [apply Nat.le_min_r|]. apply IH. by right.
Qed.

Lemma min_len_attained first others :
  ∃ s, s ∈ first :: others ∧ String.length s = min_len first others.
Proof.
  unfold min_len. induction others as [|o others (s & Hs & Hlen)]; simpl.
  - exists first. split; [left|done].
  - destruct (Nat.min_spec (String.length o)
                (foldr (λ s k, Nat.min (String.length s) k) (String.length first) others))
      as [[_ ->]|[_ ->]].
    + exists o. split; [right; left|done].
    + exists s. split; [|done].
      apply elem_of_cons in Hs as [->|Hs]; [left|right; by right].
Qed.

Lemma lcp_loop_spec matches first bound fuel : ∀ i,
  (i ≤ bound)%nat → (bound - i ≤ fuel)%nat →
  let k := lcp_loop fuel matches first bound i in
  (i ≤ k ≤ bound)%nat ∧
  (∀ j, (i ≤ j < k)%nat → agree_at matches first j = true) ∧
  (k = bound ∨ agree_at matches first k = false).
Proof.
  induction fuel as [|fuel IH]; intros i Hi Hfuel; simpl.
  { split; [lia|]. split; [intros; lia|left; lia]. }
  case_bool_decide as Hlt; simpl.
  - destruct (agree_at matches first i) eqn:Hagree.
    + destruct (IH (i + 1)%nat ltac:(lia) ltac:(lia)) as (Hk & Hall & Hend).
      split; [lia|]. split; [|done].
      intros j Hj. destruct (decide (j = i)) as [->|]; [done|]. apply Hall. lia.
    + split; [lia|]. split; [intros; lia|by right].
  - split; [lia|]. split; [intros; lia|left; lia].
Qed.

Lemma longest_common_prefix_is_longest first others :
  is_longest_common_prefix (longest_common_prefix (first :: others)) (first :: others).
Proof.
  unfold longest_common_prefix.
  set (bound := min_len first others).
  set (matches := first :: others).
  destruct (lcp_loop_spec matches first bound bound O ltac:(lia) ltac:(lia))
    as (Hk & Hall & Hend).
  set (k := lcp_loop bound matches first bound 0) in *.
  assert (Hlen : ∀ s, s ∈ matches → (k ≤ String.length s)%nat).
  { intros s Hs. pose proof (min_len_le first others s Hs). fold bound in H. lia. }
  split.
  - apply Forall_forall. intros s Hs.
    rewrite (slice_to_ext k first s).
    + apply slice_to_prefix.
    + apply Hlen. left.
    + by apply Hlen.
    + intros j Hj. symmetry.
      pose proof (Hall j ltac:(lia)) as Hj'. rewrite agree_at_true in Hj'. by apply Hj'.
  - intros q Hq. unfold common_prefix in Hq. rewrite Forall_forall in Hq.
    assert (Hqf : is_prefix q first) by (apply Hq; left).
    rewrite (is_prefix_slice q first Hqf).
    apply slice_to_le.
    destruct (decide (String.length q ≤ k)%nat) as [|Hgt]; [done|]. exfalso.
    destruct Hend as [Hb|Hdis].
    + destruct (min_len_attained first others) as (s & Hs & Hmin).
      pose proof (is_prefix_length q s (Hq s Hs)). fold bound in Hmin. lia.
    + assert (agree_at matches first k = true) as Heq; [|congruence].
      apply agree_at_true. intros s Hs.
      destruct (Hq s Hs) as [r ->]. destruct Hqf as [r' ->].
      rewrite !get_app_l by lia. done.
Qed.

Lemma longest_common_prefix_nil : longest_common_prefix [] = EmptyString.
Proof. done. Qed.

End longest_common_prefix.

(** ** Completer.compute_matches *)

Section compute_matches.
Import Completer.
Variable builtins : list string.

Lemma sorted_spec (s : gset string) :
  StronglySorted String.le (sorted s) ∧ NoDup (sorted s) ∧ ∀ n, n ∈ sorted s ↔ n ∈ s.
Proof.
  unfold sorted. split; [|split].
  - apply StronglySorted_merge_sort; apply _.
  - rewrite merge_sort_Permutation. apply NoDup_elements.
  - intros n. rewrite merge_sort_Permutation. apply elem_of_elements.
Qed.

Lemma foldl_add_spec (P : string → bool) names : ∀ (ext : gset string) n,
  n ∈ foldl (λ ext f, if P f then ext ∪ {[f]} else ext) ext names ↔
  n ∈ ext ∨ (n ∈ names ∧ P n = true).
Proof.
  induction names as [|f names IH]; intros ext n; simpl.
  - rewrite elem_of_nil. tauto.
  - rewrite IH, elem_of_cons. destruct (P f) eqn:Hf.
    + rewrite elem_of_union, elem_of_singleton. split; [|intuition congruence].
      intros [[?| ->]|?]; tauto.
    + split; [tauto|]. intros [?|[[->|?] ?]]; [tauto|congruence|tauto].
Qed.

Lemma scan_spec m text ext d :
  ∃ ext', scan m text ext d = Ok ext' ∧
    ∀ n, n ∈ ext' ↔
         n ∈ ext ∨ ∃ names, Os.listdir m d = Ok names ∧ n ∈ names ∧
                            Py.startswith n text = true ∧
                            Os.access_x m (Os.path_join d n) = true.
Proof.
  unfold scan, Os.path_isdir, Os.listdir.
  destruct (Os.stat m d) as [[x w c|[|] w x]|] eqn:Hd.
  - exists ext. split; [done|]. intros n. split; [tauto|]. by intros [?|(? & ? & ?)].
  - eexists. split; [done|]. intros n. rewrite foldl_add_spec.
    rewrite andb_true_iff. split.
    + intros [?|(? & ? & ?)]; [tauto|]. right. by eexists.
    + intros [?|(names & Hn & ? & ? & ?)]; [tauto|]. simplify_eq. tauto.
  - exists ext. split; [done|]. intros n. split; [tauto|]. by intros [?|(? & ? & ?)].
  - exists ext. split; [done|]. intros n. split; [tauto|]. by intros [?|(? & ? & ?)].
Qed.

Lemma scan_all_spec m text dirs : ∀ ext,
  ∃ ext', scan_all m text ext dirs = Ok ext' ∧
    ∀ n, n ∈ ext' ↔
         n ∈ ext ∨ ∃ d names, d ∈ dirs ∧ Os.listdir m d = Ok names ∧ n ∈ names ∧
                              Py.startswith n text = true ∧
                              Os.access_x m (Os.path_join d n) = true.
Proof.
  induction dirs as [|d dirs IH]; intros ext; simpl.
  - exists ext. split; [done|]. intros n. split; [tauto|].
    intros [?|(? & ? & []%elem_of_nil & _)]. done.
  - destruct (scan_spec m text ext d) as (ext1 & -> & H1). simpl.
    destruct (IH ext1) as (ext2 & -> & H2). exists ext2. split; [done|].
    intros n. rewrite H2, H1. split.
    + intros [[?|(names & ?)]|(d' & names & ? & ?)]; [tauto|right..].
      * exists d, names. split; [left|done].
      * exists d', names. split; [by right|done].
    + intros [?|(d' & names & [->|?]%elem_of_cons & ?)]; [tauto|..].
      * left. right. by exists names.
      * right. by exists d', names.
Qed.

(** A recomputation never raises, leaves everything but the cache alone,
    and caches the prefix, the sorted candidates and their LCP. *)
Lemma compute_matches_spec text m :
  ∃ all_matches,
    compute_matches builtins text m
    = (Ok tt, set_cache {| cache_text := text; cache_matches := all_matches;
                           cache_lcp := longest_common_prefix all_matches |} m) ∧
    StronglySorted String.le all_matches ∧ NoDup all_matches ∧
    ∀ n, n ∈ all_matches ↔ builtin_match builtins text n ∨ listed m text n.
Proof.
  unfold compute_matches, bind, modify.
  destruct (scan_all_spec m text (search_path m) ∅) as (ext & -> & Hext).
  eexists. split; [done|].
  destruct (sorted_spec (ext ∪ list_to_set (filter (λ b, Py.startswith b text = true) builtins)))
    as (Hs & Hnd & Hel).
  split; [done|]. split; [done|].
  intros n. rewrite Hel, elem_of_union, elem_of_list_to_set, list_elem_of_filter, Hext.
  unfold builtin_match, listed, executable_entry. rewrite elem_of_empty.
  split.
  - intros [[[]|(d & names & ? & ? & ? & ? & ?)]|[? ?]]; [|tauto].
    right. split; [|done]. by exists d, names.
  - intros [[? ?]|[(d & names & ? & ? & ? & ?) ?]]; [tauto|].
    left. right. by exists d, names.
Qed.

Lemma candidates_spec text m :
  compute_matches builtins text m
  = (Ok tt, set_cache {| cache_text := text; cache_matches := candidates builtins m text;
                         cache_lcp := longest_common_prefix (candidates builtins m text) |} m).
Proof.
  unfold candidates. destruct (compute_matches_spec text m) as (l & Heq & _).
  by rewrite Heq.
Qed.

(** C8 (as the code has it). A recomputation never raises.  After it the
    cached candidate list is sorted, has no duplicates, and holds exactly
    the built-in names starting with the prefix and the names starting with
    the prefix of the entries with execute permission found by listing the
    directories of the search path that exist and can be listed; for the
    empty prefix these are all built-in names and all such entries. *)
Theorem compute_matches_caches_sorted_union text m :
  let m' := (compute_matches builtins text m).2 in
  let cached := cache_matches (matches_cache m') in
  let every := cache_matches (matches_cache (compute_matches builtins EmptyString m).2) in
  (compute_matches builtins text m).1 = Ok tt ∧
  cache_text (matches_cache m') = text ∧
  StronglySorted String.le cached ∧ NoDup cached ∧
  (∀ n, n ∈ cached ↔ builtin_match builtins text n ∨ listed m text n) ∧
  StronglySorted String.le every ∧ NoDup every ∧
  (∀ n, n ∈ every ↔ n ∈ builtins ∨ executable_entry m n).
Proof.
  destruct (compute_matches_spec text m) as (l & Heq & Hs & Hnd & Hel).
  destruct (compute_matches_spec EmptyString m) as (l0 & Heq0 & Hs0 & Hnd0 & Hel0).
  rewrite Heq, Heq0. simpl. repeat split; try done; try apply Hel.
  - intros Hn. apply Hel0 in Hn as [[? _]|[? _]]; [by left|by right].
  - intros [Hn|Hn]; apply Hel0; [left|right];
      (split; [done|apply startswith_empty]).
Qed.

End compute_matches.

(** C8 as stated fails.  [foo] is an executable in the directory of the
    search path of [unlistable], which may be searched but not listed: the
    candidates cached for the empty prefix are the built-in names only, and
    none is cached for the prefix [f].  And the subdirectory [tools] of the
    search-path directory of [nested] is cached although it is no
    executable. *)
Lemma unlistable_directory_not_cached :
  on_search_path unlistable "foo" ∧ Py.startswith "foo" "f" = true ∧
  candidates Shell.builtins unlistable EmptyString = ["echo"; "exit"; "type"] ∧
  candidates Shell.builtins unlistable "f" = [] ∧
  ¬ (∀ n, n ∈ candidates Shell.builtins unlistable EmptyString
          ↔ n ∈ Shell.builtins ∨ on_search_path unlistable n) ∧
  candidates Shell.builtins nested EmptyString = ["echo"; "exit"; "tools"; "top"; "type"] ∧
  ¬ on_search_path nested "tools".
Proof.
  assert (on_search_path unlistable "foo") as Hfoo.
  { exists "/opt/bin". split; [|by vm_compute].
    change (search_path unlistable) with ["/opt/bin"]. by left. }
  assert (candidates Shell.builtins unlistable EmptyString = ["echo"; "exit"; "type"])
    as Hall by by vm_compute.
  split; [done|]. split; [by vm_compute|]. split; [done|]. split; [by vm_compute|].
  split; [|split; [by vm_compute|]].
  - intros H. specialize (H "foo"). rewrite Hall in H.
    destruct H as [_ H]. specialize (H (or_intror Hfoo)).
    repeat (apply elem_of_cons in H as [H|H]; [done|]).
    by apply elem_of_nil in H.
  - intros (d & Hd & Hfile & _).
    change (search_path nested) with ["/usr/bin"] in Hd.
    apply list_elem_of_singleton in Hd as ->. by vm_compute in Hfile.
Qed.

(** ** Completer.complete *)

Section complete.
Import Completer.
Variable builtins : list string.

Lemma consulted_recomputed text state m :
  state = 0 ∨ text ≠ cache_text (matches_cache m) →
  consulted builtins text state m
  = set_cache {| cache_text := text; cache_matches := candidates builtins m text;
                 cache_lcp := longest_common_prefix (candidates builtins m text) |} m.
Proof.
  intros H. unfold consulted. rewrite candidates_spec. simpl.
  destruct H as [->|H]; [done|].
  rewrite (bool_decide_false (text = _)) by done. by rewrite orb_true_r.
Qed.

Lemma consulted_kept text state m :
  state ≠ 0 → text = cache_text (matches_cache m) → consulted builtins text state m = m.
Proof.
  intros H1 H2. unfold consulted.
  by rewrite (bool_decide_false (state = 0)), (bool_decide_true (text = _)).
Qed.

(** [complete] is its first statement followed by the answer read off the
    cache. *)
Lemma complete_eq text state m :
  complete builtins text state m =
  let m1 := consulted builtins text state m in
  let lcp := cache_lcp (matches_cache m1) in
  match cache_matches (matches_cache m1) with
  | [] => (Ok None, rings m1)
  | [only] => (Ok (Some (Py.slice_from (String.length text) only +:+ " ")), m1)
  | matches =>
      if bool_decide (state = 0) then
        if bool_decide (String.length text < String.length lcp)%nat
        then (Ok (Some (Py.slice_from (String.length text) lcp)), m1)
        else (Ok None, rings m1)
      else if bool_decide (state - 1 < Z.of_nat (length matches)) then
        match Py.getitem matches state with
        | Ok _ => (Raise TypeError, m1)
        | Raise e => (Raise e, m1)
        end
      else (Ok None, m1)
  end.
Proof.
  unfold complete, consulted, bind, reads. simpl.
  destruct (bool_decide (state = 0) || negb (bool_decide (text = _))) eqn:Hre.
  - rewrite candidates_spec. simpl.
    destruct (candidates builtins m text) as [|c1 [|c2 cs]]; [done..|].
    by repeat case_bool_decide.
  - unfold ret. destruct (cache_matches (matches_cache m)) as [|c1 [|c2 cs]]; [done..|].
    by repeat case_bool_decide.
Qed.

End complete.

Section complete_answers.
Import Completer.
Variable builtins : list string.

Lemma candidates_start_with text m :
  Forall (is_prefix text) (candidates builtins m text).
Proof.
  apply Forall_forall. intros n Hn. apply startswith_is_prefix.
  destruct (compute_matches_spec builtins text m) as (l & Heq & _ & _ & Hel).
  unfold candidates in Hn. rewrite Heq in Hn. simpl in Hn.
  apply Hel in Hn as [[_ ?]|[_ ?]]; done.
Qed.

Lemma consulted_coherent text state m :
  cache_coherent (matches_cache m) →
  cache_coherent (matches_cache (consulted builtins text state m)) ∧
  cache_text (matches_cache (consulted builtins text state m)) = text.
Proof.
  intros Hm.
  destruct (decide (state = 0 ∨ text ≠ cache_text (matches_cache m))) as [H|H].
  - rewrite consulted_recomputed by done. split; [|reflexivity].
    apply candidates_start_with.
  - assert (state ≠ 0 ∧ text = cache_text (matches_cache m)) as [H0 Ht].
    { destruct (decide (state = 0)), (decide (text = cache_text (matches_cache m)));
        tauto. }
    rewrite consulted_kept by done. by split.
Qed.

Lemma getitem_cycle (matches : list string) (state : Z) :
  1 ≤ state →
  Py.getitem matches state
  = if bool_decide (state < Z.of_nat (length matches))
    then match matches !! Z.to_nat state with
         | Some c => Ok c
         | None => Raise IndexError
         end
    else Raise IndexError.
Proof.
  intros Hs. unfold Py.getitem.
  rewrite (proj2 (Z.ltb_ge state 0)) by lia.
  rewrite (proj2 (Z.leb_le 0 state)) by lia. simpl.
  case_bool_decide.
  - by rewrite (proj2 (Z.ltb_lt _ _)).
  - by rewrite (proj2 (Z.ltb_ge _ _)) by lia.
Qed.

Lemma complete_keeps_coherent text state m :
  cache_coherent (matches_cache m) →
  cache_coherent (matches_cache (complete builtins text state m).2).
Proof.
  intros Hm. destruct (consulted_coherent text state m Hm) as [Hc _].
  rewrite complete_eq. simpl.
  destruct (cache_matches (matches_cache (consulted builtins text state m)))
    as [|c1 [|c2 cs]]; [done..|].
  repeat case_bool_decide; try done. by destruct (Py.getitem _ _).
Qed.

Lemma initial_cache_coherent : cache_coherent initial_cache.
Proof. constructor. Qed.

(** C1 (what the code does). On a request with index at least 1 and two
    or more candidates, an index within the list raises: [TypeError] from
    adding a list to a string, or [IndexError] at the last position, where
    [matches[state]] is already out of range.  Only an index past the end
    gives none. *)
Theorem complete_cycle_request text state m :
  let m1 := consulted builtins text state m in
  let matches := cache_matches (matches_cache m1) in
  (2 ≤ length matches)%nat → 1 ≤ state →
  complete builtins text state m =
  if bool_decide (state < Z.of_nat (length matches)) then (Raise TypeError, m1)
  else if bool_decide (state = Z.of_nat (length matches)) then (Raise IndexError, m1)
  else (Ok None, m1).
Proof.
  intros m1 matches Hlen Hstate. rewrite complete_eq. cbv zeta.
  fold m1. fold matches. clearbody matches m1.
  destruct matches as [|c1 [|c2 cs]]; [simpl in Hlen; lia..|].
  set (matches := c1 :: c2 :: cs) in *.
  rewrite (bool_decide_false (state = 0)) by lia.
  rewrite getitem_cycle by done.
  destruct (decide (state < Z.of_nat (length matches))) as [H1|H1].
  - rewrite (bool_decide_true (state - 1 < _)) by lia.
    rewrite (bool_decide_true (state < _)) by done.
    destruct (lookup_lt_is_Some_2 matches (Z.to_nat state)) as [c ->]; [lia|done].
  - rewrite (bool_decide_false (state < _)) by done.
    destruct (decide (state = Z.of_nat (length matches))) as [H2|H2].
    + rewrite (bool_decide_true (state - 1 < _)) by lia.
      by rewrite (bool_decide_true (state = _)).
    + rewrite (bool_decide_false (state - 1 < _)) by lia.
      by rewrite (bool_decide_false (state = _)).
Qed.

(** C6. On request 0 with two or more candidates, the cached LCP is the
    longest common prefix of the candidates and extends the typed prefix;
    if it is strictly longer, the answer is its remainder beyond the prefix
    and nothing else, otherwise the bell rings and the answer is none. *)
Theorem complete_first_request text m :
  let m1 := consulted builtins text 0 m in
  let cands := candidates builtins m text in
  let L := longest_common_prefix cands in
  (2 ≤ length cands)%nat →
  is_longest_common_prefix L cands ∧
  ∃ rest, L = text +:+ rest ∧
    complete builtins text 0 m =
    if bool_decide (String.length text < String.length L)%nat
    then (Ok (Some rest), m1)
    else (Ok None, rings m1).
Proof.
  intros m1 cands L Hlen.
  assert (HL : is_longest_common_prefix L cands).
  { subst L. destruct cands as [|c1 cs] eqn:Hc; [simpl in Hlen; lia|].
    apply longest_common_prefix_is_longest. }
  split; [done|].
  destruct (proj2 HL text (candidates_start_with text m)) as [rest Hrest].
  exists rest. split; [done|].
  rewrite complete_eq. cbv zeta. fold m1.
  assert (Hm1 : matches_cache m1
                = {| cache_text := text; cache_matches := cands; cache_lcp := L |}).
  { subst m1. by rewrite consulted_recomputed by by left. }
  rewrite Hm1. simpl. clearbody m1 L.
  destruct cands as [|c1 [|c2 cs]]; [simpl in Hlen; lia..|].
  case_bool_decide; [|done].
  by rewrite Hrest, slice_from_app.
Qed.

(** C7. With exactly one candidate the answer is, at every request index,
    the rest of the candidate beyond the prefix followed by one space. *)
Theorem complete_single_candidate text state m only :
  cache_coherent (matches_cache m) →
  cache_matches (matches_cache (consulted builtins text state m)) = [only] →
  ∃ rest, only = text +:+ rest ∧
    complete builtins text state m
    = (Ok (Some (rest +:+ " ")), consulted builtins text state m).
Proof.
  intros Hm Hone.
  destruct (consulted_coherent text state m Hm) as [Hc Ht].
  unfold cache_coherent in Hc. rewrite Ht, Hone in Hc.
  apply Forall_singleton in Hc as [rest Hrest].
  exists rest. split; [done|].
  rewrite complete_eq. simpl. rewrite Hone.
  by rewrite Hrest, slice_from_app.
Qed.

End complete_answers.

Lemma complete_cycle_request_witness :
  cache_matches (matches_cache (consulted Shell.builtins "t" 1
                   (Completer.complete Shell.builtins "t" 0 host).2))
  = ["top"; "type"] ∧
  (Completer.complete Shell.builtins "t" 1
     (Completer.complete Shell.builtins "t" 0 host).2).1 = Raise TypeError ∧
  (Completer.complete Shell.builtins "t" 2
     (Completer.complete Shell.builtins "t" 0 host).2).1 = Raise IndexError ∧
  (Completer.complete Shell.builtins "t" 3
     (Completer.complete Shell.builtins "t" 0 host).2).1 = Ok None.
Proof.
  split; [by vm_compute|].
  split; [|split].
  - rewrite (complete_cycle_request Shell.builtins "t" 1); [done|by vm_compute|lia].
  - rewrite (complete_cycle_request Shell.builtins "t" 2); [done|by vm_compute|lia].
  - rewrite (complete_cycle_request Shell.builtins "t" 3); [done|by vm_compute|lia].
Defined.

Lemma complete_first_request_witness :
  candidates Shell.builtins host "t" = ["top"; "type"] ∧
  Completer.complete Shell.builtins "t" 0 host
  = (Ok None, rings (consulted Shell.builtins "t" 0 host)) ∧
  candidates Shell.builtins wide "to" = ["top"; "toplevel"] ∧
  Completer.complete Shell.builtins "to" 0 wide
  = (Ok (Some "p"), consulted Shell.builtins "to" 0 wide).
Proof.
  split; [by vm_compute|].
  split.
  { destruct (complete_first_request Shell.builtins "t" host) as (_ & rest & _ & ->);
      [vm_compute; lia|done]. }
  split; [by vm_compute|].
  destruct (complete_first_request Shell.builtins "to" wide) as (_ & rest & Hrest & ->);
    [vm_compute; lia|].
  assert (Completer.longest_common_prefix (candidates Shell.builtins wide "to") = "top")
    as HL by by vm_compute.
  rewrite HL in *. apply (inj (String.app "to") "p") in Hrest. by subst rest.
Defined.

Lemma complete_single_candidate_witness :
  (Completer.complete Shell.builtins "ec" 0 bare).1 = Ok (Some "ho ").
Proof.
  destruct (complete_single_candidate Shell.builtins "ec" 0 bare "echo")
    as (rest & Hrest & ->).
  - constructor.
  - by vm_compute.
  - simpl. apply (inj (String.app "ec")) in Hrest. by subst rest.
Defined.

(** ** Blank lines and the tokenizer *)

Section blank_lines.

Lemma words_go_nil s : ∀ cur, Py.words_go cur s = [] → cur = None ∧ blank s = true.
Proof.
  induction s as [|a s IH]; intros cur; simpl.
  - destruct cur; [done|]. by split.
  - destruct (Py.isspace a).
    + intros [Hc Hs]%app_eq_nil. destruct (IH None Hs) as [_ ->].
      destruct cur; [done|]. by split.
    + intros Hs. by destruct (IH _ Hs) as [? _].
Qed.

Lemma words_nil_blank s : Py.words s = [] → blank s = true.
Proof. intros H. by destruct (words_go_nil s None H). Qed.

Lemma isspace_plain c :
  Py.isspace c = true →
  Shlex.escape c = false ∧ Shlex.quotes c = false ∧ c ≠ ">"%char.
Proof. destruct c as [[] [] [] [] [] [] [] []]; by vm_compute. Qed.

Lemma blank_snoc token c :
  blank token = true → Py.isspace c = true → blank (Shlex.snoc token c) = true.
Proof.
  intros Ht Hc. unfold Shlex.snoc. induction token as [|a token IH]; simpl in *.
  - by rewrite Hc.
  - apply andb_true_iff in Ht as [-> Ht]. simpl. by apply IH.
Qed.

(** On blanks the tokenizer never fails, and its tokens are blanks. *)
Lemma lex_blank s : ∀ st quoted token,
  blank s = true → blank token = true → st = Shlex.Blank ∨ st = Shlex.Word →
  ∃ toks, Shlex.lex st quoted token s = Ok toks ∧ Forall (λ t, blank t = true) toks.
Proof.
  induction s as [|c s IH]; intros st quoted token Hs Ht Hst.
  - exists (if Shlex.nonempty token || quoted then [token] else []).
    split; [by destruct Hst as [-> | ->]|].
    destruct (Shlex.nonempty token || quoted); repeat constructor; done.
  - simpl in Hs. apply andb_true_iff in Hs as [Hc Hs].
    destruct (isspace_plain c Hc) as (He & Hq & _).
    destruct Hst as [-> | ->]; simpl; rewrite He, Hq;
      destruct (Shlex.whitespace c); try destruct (Shlex.nonempty token || quoted).
    + destruct (IH Shlex.Blank false EmptyString) as (toks & -> & Htoks); auto.
      exists (token :: toks). split; [done|]. by constructor.
    + apply IH; auto.
    + apply IH; auto. simpl. by rewrite Hc.
    + apply IH; auto. simpl. by rewrite Hc.
    + destruct (IH Shlex.Blank false EmptyString) as (toks & -> & Htoks); auto.
      exists (token :: toks). split; [done|]. by constructor.
    + apply IH; auto.
    + apply IH; auto. by apply blank_snoc.
    + apply IH; auto. by apply blank_snoc.
Qed.

Lemma token_not_blank op : blank (token op) = false.
Proof. by destruct op. Qed.

Lemma malformed_not_blank command e : malformed command e → Py.words command ≠ [].
Proof.
  intros Hbad Hw. apply words_nil_blank in Hw.
  destruct Hbad as [command msg H|command items op _ H];
    destruct (lex_blank command Shlex.Blank false EmptyString Hw eq_refl)
      as (toks & Htoks & Hall); try (by left);
    unfold Shlex.split in H; rewrite H in Htoks; [done|].
  simplify_eq. rewrite Forall_app, Forall_singleton in Hall. destruct Hall as [_ Hop].
  by rewrite token_not_blank in Hop.
Qed.

Lemma tokens_not_blank command parts w :
  Shlex.split command = Ok parts → w ∈ parts → blank w = false →
  Py.words command ≠ [].
Proof.
  intros Hsplit Hw Hb Hwords. apply words_nil_blank in Hwords.
  destruct (lex_blank command Shlex.Blank false EmptyString Hwords eq_refl)
    as (toks & Htoks & Hall); [by left|].
  unfold Shlex.split in Hsplit. rewrite Hsplit in Htoks. simplify_eq.
  rewrite Forall_forall in Hall. specialize (Hall w Hw). congruence.
Qed.

End blank_lines.

(** ** Shell.run *)

Section run.

Lemma run_cons command rest m :
  Py.words command ≠ [] →
  Shell.run (command :: rest) m =
  match Shell.dispatch command (prompted m) with
  | (Ok _, m') => Shell.run rest m'
  | (Raise e, m') => (Raise e, m')
  end.
Proof.
  intros Hw. simpl. unfold bind at 1. unfold tty_write, modify. fold (prompted m).
  destruct (Py.words command); [done|]. unfold bind at 1.
  by destruct (Shell.dispatch command (prompted m)) as [[[]|e] m'].
Qed.

Lemma run_end m : ∃ m', Shell.run [] m = (Ok tt, m').
Proof. by eexists. Qed.

Lemma dispatch_malformed command e m :
  malformed command e → Shell.dispatch command m = (Raise e, m).
Proof.
  intros [c msg H|c items op Hwf H]; unfold Shell.dispatch, bind, lift; rewrite H.
  - done.
  - by rewrite parse_dangling.
Qed.

(** C2 (as the code has it). A malformed line raises [ValueError] from the
    tokenizer or [IndexError] from the redirection parser; [run] does not
    catch it, so the loop ends with that exception right after the prompt
    and the lines that follow are not read. *)
Theorem malformed_line_ends_run command e rest m :
  malformed command e →
  Shell.run (command :: rest) m = (Raise e, prompted m).
Proof.
  intros Hbad. rewrite run_cons by by eapply malformed_not_blank.
  by rewrite (dispatch_malformed command e).
Qed.

Lemma malformed_line_ends_run_witness :
  malformed "echo >" IndexError ∧
  Shell.run ["echo >"; "echo hi"] bare = (Raise IndexError, prompted bare) ∧
  malformed "echo 'hi" (ValueError "No closing quotation") ∧
  Shell.run ["echo 'hi"; "echo hi"] bare
  = (Raise (ValueError "No closing quotation"), prompted bare).
Proof.
  assert (malformed "echo >" IndexError) as H1.
  { apply (dangling "echo >" [Plain "echo"] OutW); [by repeat constructor|done]. }
  assert (malformed "echo 'hi" (ValueError "No closing quotation")) as H2.
  { by apply unterminated. }
  split; [done|]. split; [|split; [done|]].
  - by apply (malformed_line_ends_run "echo >" IndexError ["echo hi"] bare).
  - by apply (malformed_line_ends_run "echo 'hi" _ ["echo hi"] bare).
Defined.

(** C2 as stated fails: after the line [echo >] the loop does not go on to
    the end of input; it ends with [IndexError]. *)
Lemma dangling_operator_not_survived :
  malformed "echo >" IndexError ∧ ¬ survives "echo >" [] bare.
Proof.
  split.
  - apply (dangling "echo >" [Plain "echo"] OutW); [by repeat constructor|done].
  - intros [m' H]. destruct (run_end m') as [m'' H']. rewrite H' in H.
    vm_compute in H. discriminate.
Qed.

End run.

(** ** Failures of the host during a dispatch *)

Section open_failures.

Ltac crack :=
  repeat (
    unfold bind, lift, reads, ret, raise, modify, tty_write, print, Os.write,
      try_finally in *;
    match goal with
    | H : context [match ?x with _ => _ end] |- _ => destruct x eqn:?
    | H : context [if ?x then _ else _] |- _ => destruct x eqn:?
    end; simplify_eq).

Lemma getitem_raises {A} (l : list A) k e : Py.getitem l k = Raise e → e = IndexError.
Proof. unfold Py.getitem. intros H. crack; done. Qed.

Lemma lex_raises s : ∀ st quoted token e,
  Shlex.lex st quoted token s = Raise e → ∃ msg, e = ValueError msg.
Proof.
  induction s as [|c s IH]; intros st quoted token e H; simpl in H.
  - destruct st; simplify_eq; by eexists.
  - destruct st as [| |q|[| |q|back]];
      repeat (match type of H with
              | context [if ?x then _ else _] => destruct x
              | context [rbind ?x _] => destruct x eqn:?; simpl in H
              end); simplify_eq; eauto.
Qed.

Lemma parse_raises parts e :
  RedirectionManager.parse_redirection parts = Raise e → e = IndexError.
Proof.
  destruct (itemize_spec (length parts) parts) as [Hwf Heq]; [done|].
  destruct (itemize parts).2 as [op|]; simpl in Heq; rewrite Heq.
  - rewrite parse_dangling by done. congruence.
  - rewrite app_nil_r, parse_items by done. congruence.
Qed.

Lemma getitem_head {A} (x : A) l : Py.getitem (x :: l) 0 = Ok x.
Proof. reflexivity. Qed.

Lemma getitem_second {A} (x y : A) l : Py.getitem (x :: y :: l) 1 = Ok y.
Proof.
  unfold Py.getitem. cbv zeta. change (1 <? 0) with false. cbv iota.
  destruct (1 <? Z.of_nat (length (x :: y :: l))) eqn:H; [reflexivity|].
  apply Z.ltb_ge in H. simpl length in H. lia.
Qed.

Lemma handle_exit_result parts m :
  CommandHandler.handle_exit parts m =
  match parts with
  | [] => (Raise IndexError, m)
  | p0 :: _ => if bool_decide (p0 = "exit") then (Raise (SystemExit 0), m)
               else (Ok false, m)
  end.
Proof.
  unfold CommandHandler.handle_exit, bind, lift. destruct parts as [|p0 args]; [done|].
  rewrite getitem_head. by case_bool_decide.
Qed.

Lemma handle_echo_other p0 args so sm se em m :
  p0 ≠ "echo" → CommandHandler.handle_echo (p0 :: args) so sm se em m = (Ok false, m).
Proof.
  intros H. unfold CommandHandler.handle_echo, bind, lift. rewrite getitem_head.
  by rewrite bool_decide_false.
Qed.

Lemma handle_type_other builtins p0 args so sm m :
  (p0 = "type" → args = []) →
  CommandHandler.handle_type builtins (p0 :: args) so sm m = (Ok false, m).
Proof.
  intros H. unfold CommandHandler.handle_type, bind, lift. rewrite getitem_head.
  destruct (decide (p0 = "type")) as [Hp|Hp].
  - rewrite (H Hp). simpl. by rewrite orb_true_r.
  - by rewrite (bool_decide_false (p0 = "type")).
Qed.

(** The dispatch of a line that tokenizes and parses. *)
Lemma dispatch_parsed command parts r m :
  Shlex.split command = Ok parts →
  RedirectionManager.parse_redirection parts = Ok r →
  Shell.dispatch command m =
  match RedirectionManager.cmd_parts r with
  | [] => (Raise IndexError, m)
  | p0 :: _ =>
      if bool_decide (p0 = "exit") then (Raise (SystemExit 0), m)
      else
        (b <- CommandHandler.handle_echo (RedirectionManager.cmd_parts r)
                (RedirectionManager.stdout_file r) (RedirectionManager.stdout_mode r)
                (RedirectionManager.stderr_file r) (RedirectionManager.stderr_mode r) ;;
         if b : bool then ret tt else
         b <- CommandHandler.handle_type Shell.builtins (RedirectionManager.cmd_parts r)
                (RedirectionManager.stdout_file r) (RedirectionManager.stdout_mode r) ;;
         if b : bool then ret tt else
         Shell.run_external (RedirectionManager.cmd_parts r)
           (RedirectionManager.stdout_file r) (RedirectionManager.stderr_file r)
           (RedirectionManager.stdout_mode r) (RedirectionManager.stderr_mode r)) m
  end.
Proof.
  intros Hs Hp. unfold Shell.dispatch. unfold bind at 1, lift. rewrite Hs.
  unfold bind at 1. rewrite Hp. unfold bind at 1. rewrite handle_exit_result.
  destruct (RedirectionManager.cmd_parts r) as [|p0 args]; [done|].
  by case_bool_decide.
Qed.

(** [echo], once it has found its name. *)
Lemma handle_echo_eq args so sm se em m :
  CommandHandler.handle_echo ("echo" :: args) so sm se em m =
  (match truthy so with
   | Some f =>
       out_file <- RedirectionManager.open_for_write f sm ;;
       Os.write out_file (Py.join " " args +:+ newline)
   | None => print (Py.join " " args)
   end ;;
   match truthy se with
   | Some f => _ <- RedirectionManager.open_for_write f em ;; ret tt
   | None => ret tt
   end ;;
   ret true) m.
Proof.
  unfold CommandHandler.handle_echo. unfold bind at 1, lift. by rewrite getitem_head.
Qed.

(** [type] with an argument, up to the line it writes. *)
Lemma handle_type_eq builtins name more so sm m :
  ∃ output,
    CommandHandler.handle_type builtins ("type" :: name :: more) so sm m =
    (match truthy so with
     | Some f =>
         file <- RedirectionManager.open_for_write f sm ;;
         Os.write file (output +:+ newline)
     | None => print output
     end ;;
     ret true) m.
Proof.
  unfold CommandHandler.handle_type. unfold bind at 1, lift. rewrite getitem_head.
  change (negb (bool_decide ("type" = "type")) || bool_decide (length ("type" :: name :: more) ≤ 1)%nat)
    with (bool_decide (S (S (length more)) ≤ 1)%nat).
  rewrite bool_decide_false by lia.
  unfold bind at 1. unfold lift. rewrite getitem_second.
  unfold bind at 1. destruct (bool_decide (name ∈ builtins)).
  - by eexists.
  - unfold bind at 1, reads. destruct (truthy (find_executable m name)); by eexists.
Qed.

(** [run_external], once the name has been looked up. *)
Lemma run_external_eq p0 args so se sm em m :
  Shell.run_external (p0 :: args) so se sm em m =
  match truthy (find_executable m p0) with
  | None =>
      match truthy se with
      | Some f =>
          (err_file <- RedirectionManager.open_for_write f sm ;;
           Os.write err_file (p0 +:+ ": command not found" +:+ newline)) m
      | None => tty_write Stderr (p0 +:+ ": command not found" +:+ newline) m
      end
  | Some full =>
      try_finally
        (stdout_handle <-
           match truthy so with
           | Some f => h <- RedirectionManager.open_for_write f sm ;; ret (Some h)
           | None => ret None
           end ;;
         stderr_handle <-
           match truthy se with
           | Some f => h <- RedirectionManager.open_for_write f em ;; ret (Some h)
           | None => ret None
           end ;;
         Shell.subprocess_run (p0 :: args) full stdout_handle stderr_handle)
        (ret tt) m
  end.
Proof.
  unfold Shell.run_external. unfold bind at 1, lift. rewrite getitem_head.
  unfold bind at 1, reads.
  destruct (truthy (find_executable m p0)); [done|]. by destruct (truthy se).
Qed.

(** What is left of the dispatch for a command vector that is neither
    [exit] nor [echo] nor [type] with an argument. *)
Lemma dispatch_external command parts r p0 args m :
  Shlex.split command = Ok parts →
  RedirectionManager.parse_redirection parts = Ok r →
  RedirectionManager.cmd_parts r = p0 :: args → external p0 args →
  Shell.dispatch command m =
  Shell.run_external (p0 :: args)
    (RedirectionManager.stdout_file r) (RedirectionManager.stderr_file r)
    (RedirectionManager.stdout_mode r) (RedirectionManager.stderr_mode r) m.
Proof.
  intros Hs Hp Hc (Hexit & Hecho & Htype).
  rewrite (dispatch_parsed command parts r) by done. rewrite Hc.
  rewrite bool_decide_false by done.
  unfold bind at 1. rewrite handle_echo_other by done.
  unfold bind at 1. by rewrite handle_type_other.
Qed.

Lemma dispatch_echo command parts r args m :
  Shlex.split command = Ok parts →
  RedirectionManager.parse_redirection parts = Ok r →
  RedirectionManager.cmd_parts r = "echo" :: args →
  Shell.dispatch command m =
  match CommandHandler.handle_echo ("echo" :: args)
          (RedirectionManager.stdout_file r) (RedirectionManager.stdout_mode r)
          (RedirectionManager.stderr_file r) (RedirectionManager.stderr_mode r) m with
  | (Ok _, m') => (Ok tt, m')
  | (Raise e, m') => (Raise e, m')
  end.
Proof.
  intros Hs Hp Hc. rewrite (dispatch_parsed command parts r) by done. rewrite Hc.
  rewrite bool_decide_false by done. unfold bind at 1.
  destruct (CommandHandler.handle_echo _ _ _ _ _ m) as [[b|e] m'] eqn:H; [|done].
  destruct b; [done|]. rewrite handle_echo_eq in H. unfold bind, ret in H.
  repeat (match type of H with
          | context [match ?x with _ => _ end] => destruct x
          end); simplify_eq.
Qed.

Lemma dispatch_type command parts r name more m :
  Shlex.split command = Ok parts →
  RedirectionManager.parse_redirection parts = Ok r →
  RedirectionManager.cmd_parts r = "type" :: name :: more →
  Shell.dispatch command m =
  match CommandHandler.handle_type Shell.builtins ("type" :: name :: more)
          (RedirectionManager.stdout_file r) (RedirectionManager.stdout_mode r) m with
  | (Ok _, m') => (Ok tt, m')
  | (Raise e, m') => (Raise e, m')
  end.
Proof.
  intros Hs Hp Hc. rewrite (dispatch_parsed command parts r) by done. rewrite Hc.
  rewrite bool_decide_false by done. unfold bind at 1.
  rewrite handle_echo_other by done. unfold bind at 1.
  destruct (CommandHandler.handle_type _ _ _ _ m) as [[b|e] m'] eqn:H; [|done].
  destruct b; [done|].
  destruct (handle_type_eq Shell.builtins name more (RedirectionManager.stdout_file r)
              (RedirectionManager.stdout_mode r) m) as [output Heq].
  rewrite Heq in H. unfold bind, ret in H.
  repeat (match type of H with
          | context [match ?x with _ => _ end] => destruct x
          end); simplify_eq.
Qed.

Lemma write_returns h data m : Os.write h data m = (Ok tt, (Os.write h data m).2).
Proof. reflexivity. Qed.

Lemma print_returns s m : print s m = (Ok tt, (print s m).2).
Proof. reflexivity. Qed.









End open_failures.

(** ** Empty command vectors *)

(** C9. The line [> f] is not blank, and its words are an operator and
    its target, so the command vector is empty; [handle_exit] then indexes
    its first element, and the dispatch, and with it the loop, ends with
    [IndexError]. *)
Theorem empty_command_vector_raises :
  ∃ command parts r,
    Py.words command ≠ [] ∧
    Shlex.split command = Ok parts ∧
    RedirectionManager.parse_redirection parts = Ok r ∧
    RedirectionManager.cmd_parts r = [] ∧
    (∀ m, CommandHandler.handle_exit [] m = (Raise IndexError, m)) ∧
    (∀ m, Shell.dispatch command m = (Raise IndexError, m)) ∧
    (∀ rest m, Shell.run (command :: rest) m = (Raise IndexError, prompted m)).
Proof.
  exists "> f", [">"; "f"],
    (RedirectionManager.Vars 2 [] (Some "f") ModeW None ModeW).
  repeat split; done.
Qed.

(** ** Command not found *)

(** In the branch for an unresolved name the stderr target is opened with
    [stdout_mode]; [stderr_mode] is not consulted. *)
Lemma run_external_not_found parts p0 so se sm em f m :
  Py.getitem parts 0 = Ok p0 → find_executable m p0 = None → truthy se = Some f →
  Shell.run_external parts so se sm em m
  = (err_file <- RedirectionManager.open_for_write f sm ;;
     Os.write err_file (p0 +:+ ": command not found" +:+ newline)) m.
Proof.
  intros Hp Hf Hse. unfold Shell.run_external.
  unfold bind at 1. unfold lift. rewrite Hp.
  unfold bind at 1. unfold reads. rewrite Hf. simpl. by rewrite Hse.
Qed.

(** The sibling paths append as asked: a resolved command and [echo] open
    the stderr target with [stderr_mode]. *)
Lemma resolved_command_appends_stderr :
  fs (Shell.run ["top 2>> out.txt"] noisy).2 !! "out.txt"
  = Some (File false true ("earlier" +:+ newline +:+ "warning" +:+ newline)) ∧
  fs (Shell.run ["echo hi 2>> out.txt"] logged).2 !! "out.txt"
  = Some (File false true ("earlier" +:+ newline)).
Proof. split; by vm_compute. Qed.

(** C4 (what the code does). [nosuch 2>> out.txt] names no program and
    asks to append to [out.txt]; the message is written, but through a
    handle opened with the mode recorded for stdout, which is truncating:
    the earlier content of [out.txt] is gone. *)
Theorem command_not_found_ignores_stderr_mode :
  find_executable logged "nosuch" = None ∧
  rbind (Shlex.split "nosuch 2>> out.txt") RedirectionManager.parse_redirection
  = Ok (RedirectionManager.Vars 3 ["nosuch"] None ModeW (Some "out.txt") ModeA) ∧
  fs logged !! "out.txt" = Some (File false true ("earlier" +:+ newline)) ∧
  (Shell.run ["nosuch 2>> out.txt"] logged).1 = Ok tt ∧
  fs (Shell.run ["nosuch 2>> out.txt"] logged).2 !! "out.txt"
  = Some (File false true ("nosuch: command not found" +:+ newline)).
Proof. repeat split; by vm_compute. Qed.

(** ** Resolution against completion *)

Section resolution.












End resolution.

(** ** The examples of the specification *)

Section examples.

Lemma type_reports :
  tty (Shell.run ["type exit"; "type nonexistent_cmd_xyz"; "type top"] host).2
  = [(Stdout, "$ "); (Stdout, "exit is a shell builtin" +:+ newline);
     (Stdout, "$ "); (Stdout, "nonexistent_cmd_xyz not found" +:+ newline);
     (Stdout, "$ "); (Stdout, "top is /usr/bin/top" +:+ newline);
     (Stdout, "$ "); (Stdout, newline)].
Proof. by vm_compute. Qed.

Lemma echo_keeps_quoted_blanks :
  Shell.run ["echo 'a   b'"; "   "; "exit"; "echo late"] bare
  = (Raise (SystemExit 0),
     set_tty (λ _, [(Stdout, "$ "); (Stdout, "a   b" +:+ newline);
                    (Stdout, "$ "); (Stdout, "$ ")]) bare).
Proof. by vm_compute. Qed.

Lemma end_of_input_ends_run :
  Shell.run [] bare = (Ok tt, set_tty (λ _, [(Stdout, "$ "); (Stdout, newline)]) bare).
Proof. by vm_compute. Qed.

Lemma redirection_creates_parents :
  fs (Shell.run ["echo hi > a/b/c 2> e"] bare).2
  = {[ "a" := Dir true true true; "a/b" := Dir true true true;
       "a/b/c" := File false true ("hi" +:+ newline);
       "e" := File false true EmptyString ]}.
Proof. apply map_eq. intros k. by vm_compute. Qed.

End examples.

(** * Further properties of the program *)

(** ** The longest common prefix *)

Section lcp_further.

Lemma length_zero_empty s : String.length s = O → s = EmptyString.
Proof. by destruct s. Qed.

Lemma is_prefix_antisym p q : is_prefix p q → is_prefix q p → p = q.
Proof.
  intros [r Hr] [r' Hr'].
  assert (String.length r = O) as Hz.
  { pose proof (f_equal String.length Hr) as H1.
    pose proof (f_equal String.length Hr') as H2.
    rewrite length_app_str in H1, H2. lia. }
  apply length_zero_empty in Hz. subst r. by rewrite app_empty_r in Hr.
Qed.

(** X1. [longest_common_prefix] returns the empty string for no strings,
    and for one or more strings the longest string that is a prefix of all
    of them, which is unique. *)
Theorem longest_common_prefix_correct matches :
  match matches with
  | [] => Completer.longest_common_prefix matches = EmptyString
  | _ :: _ =>
      is_longest_common_prefix (Completer.longest_common_prefix matches) matches ∧
      ∀ p, is_longest_common_prefix p matches →
           p = Completer.longest_common_prefix matches
  end.
Proof.
  destruct matches as [|first others]; [done|].
  pose proof (longest_common_prefix_is_longest first others) as HL.
  split; [done|]. intros p Hp.
  apply is_prefix_antisym; [apply HL, Hp|apply Hp, HL].
Qed.

End lcp_further.

(** ** The redirection parser *)

Section parser_further.
Import RedirectionManager.

Lemma words_of_snoc items it : words_of (items ++ [it]) = words_of items ++ item_words it.
Proof. unfold words_of. rewrite bind_app. simpl. by rewrite app_nil_r. Qed.

Lemma expected_snoc items it : expected (items ++ [it]) = advance (expected items) it.
Proof. by rewrite <- !foldl_advance_expected, foldl_snoc. Qed.

Lemma well_formed_snoc items it : well_formed items → item_ok it → well_formed (items ++ [it]).
Proof. intros. apply Forall_app. split; [done|]. by apply Forall_singleton. Qed.

(** X2. Parsing composes from left to right.  After words that parse,
    one more item (a plain word, or an operator with its target) is taken
    as one more iteration of the loop, and one more operator alone makes
    the parser raise [IndexError].  After words on which the parser raises,
    any one more word is taken as the missing target, so the longer list
    parses. *)
Theorem parse_redirection_extends parts :
  (∀ r it, parse_redirection parts = Ok r → item_ok it →
           parse_redirection (parts ++ item_words it) = Ok (advance r it)) ∧
  (∀ r op, parse_redirection parts = Ok r →
           parse_redirection (parts ++ [token op]) = Raise IndexError) ∧
  (∀ e target, parse_redirection parts = Raise e →
     ∃ r, parse_redirection (parts ++ [target]) = Ok r ∧
          (stdout_file r = Some target ∨ stderr_file r = Some target)).
Proof.
  split; [|split].
  - intros r it (items & Hwf & -> & ->)%parse_ok_items Hit.
    rewrite <- words_of_snoc, <- expected_snoc.
    by apply parse_items, well_formed_snoc.
  - intros r op (items & Hwf & -> & ->)%parse_ok_items. by apply parse_dangling.
  - intros e target (items & op & Hwf & ->)%parse_raise_items.
    rewrite <- app_assoc.
    change ([token op] ++ [target]) with (item_words (Redirect op target)).
    rewrite <- words_of_snoc, parse_items by by apply well_formed_snoc.
    eexists. split; [done|]. rewrite expected_snoc.
    destruct (expected items), op; simpl; auto.
Qed.

Lemma parse_redirection_extends_witness :
  parse_redirection ["ls"; "2>"; "e"; ">"; "a"; ">>"; "b"]
  = Ok {| i := 7; cmd_parts := ["ls"];
          stdout_file := Some "b"; stdout_mode := ModeA;
          stderr_file := Some "e"; stderr_mode := ModeW |}.
Proof.
  apply (proj1 (parse_redirection_extends ["ls"; "2>"; "e"; ">"; "a"])
           (Vars 5 ["ls"] (Some "a") ModeW (Some "e") ModeW) (Redirect OutA "b"));
    [by vm_compute|exact I].
Defined.

Lemma command_vector_sublist items : sublist (command_vector items) (words_of items).
Proof.
  induction items as [|[w|op t] items IH]; [constructor|..];
    rewrite words_of_cons; simpl.
  - by apply sublist_skip.
  - by do 2 apply sublist_cons.
Qed.

Lemma command_vector_plain items :
  well_formed items → Forall (λ w, classify w = None) (command_vector items).
Proof.
  induction 1 as [|[w|op t] items Hit _ IH]; simpl; [constructor|by constructor|done].
Qed.

Lemma plain_items l :
  Forall (λ w, classify w = None) l →
  well_formed (Plain <$> l) ∧ words_of (Plain <$> l) = l ∧ expected (Plain <$> l) = untouched l.
Proof.
  intros Hl. split; [by apply Forall_fmap|].
  assert (words_of (Plain <$> l) = l) as Hw.
  { clear Hl. induction l as [|w l IH]; [done|].
    rewrite fmap_cons, words_of_cons, IH. done. }
  split; [done|]. unfold expected, untouched, last_target. rewrite Hw.
  assert (command_vector (Plain <$> l) = l) as ->.
  { clear. induction l as [|w l IH]; [done|]. simpl. f_equal. exact IH. }
  assert (∀ st, targets st (Plain <$> l) = []) as Ht.
  { clear. intros st. induction l as [|w l IH]; [done|]. exact IH. }
  by rewrite !Ht.
Qed.

(** X3. The command vector of a successful parse is a sublist of the
    words, in their order, and holds no operator token; words without any
    operator token are returned as they are with no target, so parsing a
    command vector again changes nothing. *)
Theorem command_vector_is_clean parts r :
  parse_redirection parts = Ok r →
  sublist (cmd_parts r) parts ∧
  Forall (λ w, classify w = None) (cmd_parts r) ∧
  parse_redirection (cmd_parts r) = Ok (untouched (cmd_parts r)) ∧
  (Forall (λ w, classify w = None) parts → r = untouched parts).
Proof.
  intros (items & Hwf & -> & ->)%parse_ok_items. simpl.
  pose proof (command_vector_plain items Hwf) as Hplain.
  split; [apply command_vector_sublist|]. split; [done|]. split.
  - destruct (plain_items _ Hplain) as (Hwf' & Hw & He).
    rewrite <- Hw at 1. rewrite parse_items by done. by rewrite He.
  - intros Hall. destruct (plain_items _ Hall) as (Hwf' & Hw & He).
    pose proof (parse_items _ Hwf') as H1. pose proof (parse_items _ Hwf) as H2.
    rewrite Hw, He in H1. congruence.
Qed.

Lemma command_vector_is_clean_witness :
  sublist ["cat"; "-n"] ["cat"; ">"; "2>"; "-n"; "2>>"; "log"] ∧
  parse_redirection ["cat"; "-n"] = Ok (untouched ["cat"; "-n"]).
Proof.
  destruct (command_vector_is_clean ["cat"; ">"; "2>"; "-n"; "2>>"; "log"]
              (Vars 6 ["cat"; "-n"] (Some "2>") ModeW (Some "log") ModeA))
    as (H1 & _ & H2 & _); [by vm_compute|]. by split.
Defined.

End parser_further.

(** ** Resolution *)

Section resolution_further.

Lemma find_in_first m program dirs :
  match find_in m dirs program with
  | Some full =>
      ∃ pre d post, dirs = pre ++ d :: post ∧ full = Os.path_join d program ∧
                    resolves_in m program d = true ∧
                    Forall (λ d', resolves_in m program d' = false) pre
  | None => Forall (λ d, resolves_in m program d = false) dirs
  end.
Proof.
  induction dirs as [|d dirs IH]; simpl; [constructor|].
  fold (resolves_in m program d). destruct (resolves_in m program d) eqn:Hd.
  - exists [], d, dirs. repeat split; [done|constructor].
  - destruct (find_in m dirs program) as [full|].
    + destruct IH as (pre & d' & post & -> & -> & Hd' & Hpre).
      exists (d :: pre), d', post. repeat split; [done|]. by constructor.
    + by constructor.
Qed.

(** X4. [find_executable] answers with the program in the first directory
    of the search path, in its order, that holds it as a regular file that
    may be executed; it answers none exactly when no directory does. *)
Theorem find_executable_first_match m program :
  match find_executable m program with
  | Some full =>
      ∃ pre d post, search_path m = pre ++ d :: post ∧
                    full = Os.path_join d program ∧
                    resolves_in m program d = true ∧
                    Forall (λ d', resolves_in m program d' = false) pre
  | None => Forall (λ d, resolves_in m program d = false) (search_path m)
  end.
Proof.
  unfold find_executable. generalize (search_path m). intros dirs.
  pose proof (find_in_first m program dirs) as H.
  destruct (find_in m dirs program) as [full|]; [|done].
  destruct H as (pre & d & post & Hdirs & Hfull & Hd & Hpre).
  by exists pre, d, post.
Qed.

End resolution_further.

(** ** The loop *)

Section run_further.

Lemma run_blank command rest m :
  Py.words command = [] → Shell.run (command :: rest) m = Shell.run rest (prompted m).
Proof.
  intros Hw. simpl. unfold bind at 1. unfold tty_write, modify. fold (prompted m).
  by rewrite Hw.
Qed.

(** X5. A line of blanks only (in the sense of [str.split]: spaces, tabs
    and the other white space) is skipped: nothing but the prompt is
    written, and the loop goes on with the next line. *)
Theorem blank_line_skipped command rest m :
  blank command = true →
  Shell.run (command :: rest) m = Shell.run rest (prompted m).
Proof.
  intros H. apply run_blank. revert H. unfold Py.words.
  induction command as [|a s IH]; simpl; [done|].
  intros [-> Hs]%andb_true_iff. simpl. by apply IH.
Qed.

Lemma blank_line_skipped_witness :
  Shell.run [String " " (String "009" (String "011" EmptyString)); "echo hi"] bare
  = Shell.run ["echo hi"] (prompted bare).
Proof.
  by apply (blank_line_skipped (String " " (String "009" (String "011" EmptyString)))
              ["echo hi"] bare).
Defined.

Lemma dispatch_exit command parts r args m :
  Shlex.split command = Ok parts →
  RedirectionManager.parse_redirection parts = Ok r →
  RedirectionManager.cmd_parts r = "exit" :: args →
  Shell.dispatch command m = (Raise (SystemExit 0), m).
Proof.
  intros Hs Hp Hc. unfold Shell.dispatch, bind, lift. by rewrite Hs, Hp, Hc.
Qed.

(** X6. A line whose command vector starts with [exit] ends the loop
    with [SystemExit(0)] right after the prompt, whatever arguments and
    redirections the line has: no target is opened or created, and the
    lines that follow are not read. *)
Theorem exit_ends_run command parts r args rest m :
  Shlex.split command = Ok parts →
  RedirectionManager.parse_redirection parts = Ok r →
  RedirectionManager.cmd_parts r = "exit" :: args →
  Shell.run (command :: rest) m = (Raise (SystemExit 0), prompted m).
Proof.
  intros Hs Hp Hc. rewrite run_cons.
  - by rewrite (dispatch_exit command parts r args).
  - apply (tokens_not_blank command parts "exit"); [done| |done].
    destruct (parse_ok_items parts r Hp) as (items & _ & -> & ->).
    eapply elem_of_sublist; [|apply command_vector_sublist].
    simpl in Hc. rewrite Hc. left.
Qed.

Lemma exit_ends_run_witness :
  Shell.run ["exit 3 > gone.txt 2>> out.txt"; "echo hi"] logged
  = (Raise (SystemExit 0), prompted logged).
Proof.
  apply (exit_ends_run "exit 3 > gone.txt 2>> out.txt"
           ["exit"; "3"; ">"; "gone.txt"; "2>>"; "out.txt"]
           (RedirectionManager.Vars 6 ["exit"; "3"] (Some "gone.txt") ModeW
              (Some "out.txt") ModeA) ["3"]); by vm_compute.
Defined.

(** X7. When [run] ends with an exception, some non-blank line raised it
    in its dispatch; the state is the one that dispatch left, and
    whatever lines follow that line make no difference. *)
Theorem run_stops_at_first_failure lines : ∀ m e m',
  Shell.run lines m = (Raise e, m') →
  ∃ pre command post m1,
    lines = pre ++ command :: post ∧ Py.words command ≠ [] ∧
    Shell.dispatch command (prompted m1) = (Raise e, m') ∧
    ∀ post', Shell.run (pre ++ command :: post') m = (Raise e, m').
Proof.
  induction lines as [|command rest IH]; intros m e m' H; [done|].
  destruct (decide (Py.words command = [])) as [Hw|Hw].
  - rewrite run_blank in H by done.
    destruct (IH _ _ _ H) as (pre & c & post & m1 & -> & Hc & Hd & Hall).
    exists (command :: pre), c, post, m1. repeat split; try done.
    intros post'. rewrite <- app_comm_cons, run_blank by done. apply Hall.
  - rewrite run_cons in H by done.
    destruct (Shell.dispatch command (prompted m)) as [[[]|e0] m2] eqn:Hd.
    + destruct (IH _ _ _ H) as (pre & c & post & m1 & -> & Hc & Hd' & Hall).
      exists (command :: pre), c, post, m1. repeat split; try done.
      intros post'. rewrite <- app_comm_cons, run_cons, Hd by done. apply Hall.
    + simplify_eq. exists [], command, rest, m. repeat split; try done.
      intros post'. simpl app. by rewrite run_cons, Hd.
Qed.

Lemma run_stops_at_first_failure_witness :
  ∃ pre command post m1,
    ["echo a"; "exit"; "echo b"] = pre ++ command :: post ∧ Py.words command ≠ [] ∧
    Shell.dispatch command (prompted m1)
    = (Shell.run ["echo a"; "exit"; "echo b"] bare) ∧
    ∀ post', Shell.run (pre ++ command :: post') bare
             = Shell.run ["echo a"; "exit"; "echo b"] bare.
Proof.
  apply (run_stops_at_first_failure ["echo a"; "exit"; "echo b"] bare (SystemExit 0)).
  by vm_compute.
Defined.

(** X8. When [run] returns, it has read every line: the last things on
    the terminal are a prompt, answered by the end of input, and the
    newline written for it. *)
Theorem run_returns_at_end_of_input lines : ∀ m m',
  Shell.run lines m = (Ok tt, m') →
  ∃ t, tty m' = t ++ [(Stdout, "$ "); (Stdout, newline)].
Proof.
  induction lines as [|command rest IH]; intros m m' H.
  - simpl in H. unfold bind, tty_write, print, tty_write, modify in H. simplify_eq.
    exists (tty m). simpl. by rewrite <- app_assoc.
  - destruct (decide (Py.words command = [])) as [Hw|Hw].
    + rewrite run_blank in H by done. by eapply IH.
    + rewrite run_cons in H by done.
      destruct (Shell.dispatch command (prompted m)) as [[[]|e0] m2]; [|done].
      by eapply IH.
Qed.

Lemma run_returns_at_end_of_input_witness :
  ∃ t, tty (Shell.run ["echo hi"; "type echo"] bare).2
       = t ++ [(Stdout, "$ "); (Stdout, newline)].
Proof.
  apply (run_returns_at_end_of_input ["echo hi"; "type echo"] bare). by vm_compute.
Defined.

End run_further.

(** ** Commands that are not found *)

Section unknown_further.

(** X10. A command that is no built-in and does not resolve, on a line
    without stderr target, writes the one line [<name>: command not found]
    to the terminal's stderr and nothing else: no stdout target is opened
    or created.  This includes [type] given without an argument, which is
    looked up as an external program. *)
Theorem unknown_command_reports command parts r p0 args m :
  Shlex.split command = Ok parts →
  RedirectionManager.parse_redirection parts = Ok r →
  RedirectionManager.cmd_parts r = p0 :: args →
  p0 ≠ "exit" → p0 ≠ "echo" → (p0 = "type" → args = []) →
  find_executable m p0 = None →
  truthy (RedirectionManager.stderr_file r) = None →
  Shell.dispatch command m
  = (Ok tt, set_tty (λ t, t ++ [(Stderr, p0 +:+ ": command not found" +:+ newline)]) m).
Proof.
  intros Hs Hp Hc Hexit Hecho Htype Hfind Hse.
  unfold Shell.dispatch. unfold bind at 1, lift. rewrite Hs.
  unfold bind at 1. rewrite Hp, Hc.
  unfold bind at 1. rewrite handle_exit_result, bool_decide_false by done.
  unfold bind at 1. rewrite handle_echo_other by done.
  unfold bind at 1. rewrite handle_type_other by done.
  unfold Shell.run_external, bind, lift, reads. rewrite getitem_head, Hfind. simpl.
  by rewrite Hse.
Qed.

Lemma unknown_command_reports_witness :
  Shell.dispatch "type > types.txt" bare
  = (Ok tt, set_tty (λ t, t ++ [(Stderr, "type: command not found" +:+ newline)]) bare) ∧
  fs (Shell.dispatch "type > types.txt" bare).2 = ∅.
Proof.
  assert (Shell.dispatch "type > types.txt" bare
          = (Ok tt, set_tty (λ t, t ++ [(Stderr, "type: command not found" +:+ newline)])
                      bare)) as H.
  { apply (unknown_command_reports "type > types.txt" ["type"; ">"; "types.txt"]
             (RedirectionManager.Vars 3 ["type"] (Some "types.txt") ModeW None ModeW)
             "type" []); done. }
  split; [done|]. by rewrite H.
Defined.

End unknown_further.

(** ** Redirection targets *)

Section targets_further.

Ltac crack :=
  repeat (
    unfold bind, lift, reads, ret, raise, modify, tty_write, print, Os.write,
      try_finally in *;
    match goal with
    | H : context [match ?x with _ => _ end] |- _ => destruct x eqn:?
    | H : context [if ?x then _ else _] |- _ => destruct x eqn:?
    end; simplify_eq).

Lemma grown_refl m : grown m m.
Proof. by repeat split. Qed.

Lemma grown_trans m1 m2 m3 : grown m1 m2 → grown m2 m3 → grown m1 m3.
Proof.
  intros [(? & ? & ? & ? & ?) H12] [(? & ? & ? & ? & ?) H23].
  repeat split; try congruence. auto.
Qed.

Lemma mkdir_grown p m r m' : Os.mkdir p m = (r, m') → grown m m'.
Proof.
  unfold Os.mkdir, Os.create_error, Os.stat. intros H.
  crack; try apply grown_refl.
  repeat split; try done. simpl. intros q n Hq.
  rewrite lookup_insert_ne; [done|]. intros ->. congruence.
Qed.

Lemma makedirs_go_grown fuel : ∀ name m r m',
  Os.makedirs_go fuel name m = (r, m') → grown m m'.
Proof.
  induction fuel as [|fuel IH]; intros name m r m' H; simpl in H;
    unfold Os.makedirs_body, ret in H;
    repeat (match type of H with
            | context [match Os.mkdir ?p ?m with _ => _ end] =>
                let E := fresh "E" in
                destruct (Os.mkdir p m) as [[[]|?] ?] eqn:E;
                apply mkdir_grown in E
            | context [match Os.makedirs_go ?f ?p ?m with _ => _ end] =>
                let E := fresh "E" in
                destruct (Os.makedirs_go f p m) as [[[]|?] ?] eqn:E;
                apply IH in E
            | context [if ?x then _ else _] => destruct x eqn:?
            | context [match ?x with _ => _ end] => destruct x eqn:?
            end); simplify_eq; eauto using grown_refl, grown_trans.
Qed.

Lemma open_for_write_prelude f md m :
  ∃ m1, grown m m1 ∧
    (RedirectionManager.open_for_write f md m = Os.open f md m1 ∨
     ∃ e, RedirectionManager.open_for_write f md m = (Raise e, m1)).
Proof.
  unfold RedirectionManager.open_for_write, Os.makedirs, bind, reads, ret.
  destruct (negb (bool_decide (Os.path_dirname f = EmptyString)));
    [|exists m; split; [apply grown_refl|by left]].
  destruct (negb (Os.path_exists m (Os.path_dirname f)));
    [|exists m; split; [apply grown_refl|by left]].
  destruct (Os.makedirs_go _ _ m) as [[[]|e] m1] eqn:E.
  - exists m1. split; [by eapply makedirs_go_grown|by left].
  - exists m1. split; [by eapply makedirs_go_grown|]. right. by exists e.
Qed.

Lemma open_existing f md m x c :
  Os.stat m f = Some (File x true c) →
  Os.path_dirname f = EmptyString ∨ Os.path_exists m (Os.path_dirname f) = true →
  RedirectionManager.open_for_write f md m
  = (Ok (f, md), match md with
                 | ModeW => set_fs (insert f (File x true EmptyString)) m
                 | ModeA => m
                 end).
Proof.
  intros Hf Hparent.
  unfold RedirectionManager.open_for_write, bind, reads, ret.
  destruct Hparent as [Hd|Hd].
  - rewrite Hd. simpl. unfold Os.open. by rewrite Hf.
  - destruct (negb (bool_decide (Os.path_dirname f = EmptyString)));
      rewrite ?Hd; simpl; unfold Os.open; by rewrite Hf.
Qed.

(** X12. [echo] with a stdout target that is an existing writable file
    (in the working directory, or in a directory that exists) writes its
    arguments, joined by single spaces and ended by a newline, to that
    file and nothing to the terminal: [>] replaces the earlier content,
    [>>] keeps it and writes after it. *)
Theorem echo_to_existing_file args f md em m x c :
  Os.stat m f = Some (File x true c) →
  Os.path_dirname f = EmptyString ∨ Os.path_exists m (Os.path_dirname f) = true →
  CommandHandler.handle_echo ("echo" :: args) (Some f) md None em m
  = (Ok true,
     set_fs (insert f (File x true
                         ((match md with ModeW => EmptyString | ModeA => c end)
                          +:+ Py.join " " args +:+ newline))) m).
Proof.
  intros Hf Hparent.
  assert (f ≠ EmptyString) as Hne.
  { intros ->. unfold Os.stat in Hf. done. }
  assert (fs m !! f = Some (File x true c)) as Hfs.
  { unfold Os.stat in Hf. by rewrite bool_decide_false in Hf. }
  unfold CommandHandler.handle_echo, bind, lift. rewrite getitem_head. simpl.
  rewrite bool_decide_false by done.
  rewrite (open_existing f md m x c) by done.
  unfold Os.write, modify, ret. f_equal.
  destruct md; unfold set_fs; simpl.
  - by rewrite lookup_insert_eq, insert_insert_eq, slice_from_empty, app_empty_r.
  - by rewrite Hfs.
Qed.

Lemma echo_to_existing_file_witness :
  CommandHandler.handle_echo ["echo"; "a"; "b"] (Some "out.txt") ModeA None ModeW logged
  = (Ok true,
     set_fs (insert "out.txt"
               (File false true (("earlier" +:+ newline) +:+ "a b" +:+ newline))) logged).
Proof.
  apply (echo_to_existing_file ["a"; "b"] "out.txt" ModeA ModeW logged false
           ("earlier" +:+ newline)); [by vm_compute|by left].
Defined.

(** X13. [echo] with a stderr target opens that target although it
    writes nothing to it: an existing writable file named after [2>] is
    emptied, one named after [2>>] is kept; the arguments go to the
    terminal. *)
Theorem echo_touches_stderr_target args f sm md m x c :
  Os.stat m f = Some (File x true c) →
  Os.path_dirname f = EmptyString ∨ Os.path_exists m (Os.path_dirname f) = true →
  CommandHandler.handle_echo ("echo" :: args) None sm (Some f) md m
  = (Ok true,
     set_tty (λ t, t ++ [(Stdout, Py.join " " args +:+ newline)])
       (match md with
        | ModeW => set_fs (insert f (File x true EmptyString)) m
        | ModeA => m
        end)).
Proof.
  intros Hf Hparent.
  assert (f ≠ EmptyString) as Hne.
  { intros ->. unfold Os.stat in Hf. done. }
  unfold CommandHandler.handle_echo, bind, lift. rewrite getitem_head. simpl.
  rewrite bool_decide_false by done.
  unfold print, tty_write, modify.
  rewrite (open_existing f md _ x c) by done.
  by destruct md.
Qed.

Lemma echo_touches_stderr_target_witness :
  fs (CommandHandler.handle_echo ["echo"; "hi"] None ModeW (Some "out.txt") ModeW logged).2
     !! "out.txt"
  = Some (File false true EmptyString).
Proof.
  rewrite (echo_touches_stderr_target ["hi"] "out.txt" ModeW ModeW logged false
             ("earlier" +:+ newline)); [by vm_compute|by vm_compute|by left].
Defined.

End targets_further.

(** ** The completer and the loop keep apart *)

Section separation_further.

Ltac crack :=
  repeat (
    unfold bind, lift, reads, ret, raise, modify, tty_write, print, Os.write,
      try_finally in *;
    match goal with
    | H : context [match ?x with _ => _ end] |- _ => destruct x eqn:?
    | H : context [if ?x then _ else _] |- _ => destruct x eqn:?
    end; simplify_eq).

Lemma same_session_trans m1 m2 m3 :
  same_session m1 m2 → same_session m2 m3 → same_session m1 m3.
Proof. intros (? & ? & ? & ?) (? & ? & ? & ?). repeat split; congruence. Qed.

Lemma open_same_session f md m r m' : Os.open f md m = (r, m') → same_session m m'.
Proof.
  unfold Os.open, Os.create_error. intros H.
  crack; try destruct md; repeat split; reflexivity.
Qed.

Lemma open_for_write_same_session f md m r m' :
  RedirectionManager.open_for_write f md m = (r, m') → same_session m m'.
Proof.
  intros H.
  destruct (open_for_write_prelude f md m)
    as (m1 & [(? & ? & ? & ? & ?) _] & [Ho|(e & He)]).
  - rewrite Ho in H. apply open_same_session in H as (? & ? & ? & ?).
    repeat split; congruence.
  - rewrite He in H. simplify_eq. by repeat split.
Qed.

Ltac frame :=
  repeat match goal with
         | E : RedirectionManager.open_for_write _ _ _ = _ |- _ =>
             apply open_for_write_same_session in E; destruct E as (? & ? & ? & ?)
         end;
  repeat split; simpl in *; congruence.

Lemma handle_echo_same_session parts so sm se em m r m' :
  CommandHandler.handle_echo parts so sm se em m = (r, m') → same_session m m'.
Proof. unfold CommandHandler.handle_echo. intros H. crack; frame. Qed.

Lemma handle_type_same_session builtins parts so sm m r m' :
  CommandHandler.handle_type builtins parts so sm m = (r, m') → same_session m m'.
Proof. unfold CommandHandler.handle_type. intros H. crack; frame. Qed.

Lemma run_external_same_session parts so se sm em m r m' :
  Shell.run_external parts so se sm em m = (r, m') → same_session m m'.
Proof.
  unfold Shell.run_external, Shell.subprocess_run, Shell.deliver.
  intros H. crack; frame.
Qed.

Lemma dispatch_same_session command m r m' :
  Shell.dispatch command m = (r, m') → same_session m m'.
Proof.
  unfold Shell.dispatch, bind at 1, lift. intros H.
  destruct (Shlex.split command) as [parts|e0]; [|simplify_eq; by repeat split].
  unfold bind at 1 in H. unfold lift in H.
  destruct (RedirectionManager.parse_redirection parts) as [v|e0];
    [|simplify_eq; by repeat split].
  unfold bind at 1 in H. rewrite handle_exit_result in H.
  destruct (RedirectionManager.cmd_parts v) as [|p0 args];
    [simplify_eq; by repeat split|].
  case_bool_decide; [simplify_eq; by repeat split|].
  unfold bind at 1 in H.
  destruct (CommandHandler.handle_echo _ _ _ _ _ m) as [[b|e0] m2] eqn:Hecho;
    apply handle_echo_same_session in Hecho; [|by simplify_eq].
  destruct b; [unfold ret in H; by simplify_eq|]. unfold bind at 1 in H.
  destruct (CommandHandler.handle_type _ _ _ _ m2) as [[b|e0] m3] eqn:Htype;
    apply handle_type_same_session in Htype;
    [|simplify_eq; by eapply same_session_trans].
  destruct b; [unfold ret in H; simplify_eq; by eapply same_session_trans|].
  apply run_external_same_session in H.
  eauto using same_session_trans.
Qed.

(** X14. No dispatch touches the completer or the search path: whatever
    the line is and however its dispatch ends, the cache of the completer
    and the value of [PATH] are as before, so nothing that a command
    creates or removes renews the cached candidates. *)
Theorem dispatch_keeps_completer command m :
  matches_cache (Shell.dispatch command m).2 = matches_cache m ∧
  environ_PATH (Shell.dispatch command m).2 = environ_PATH m.
Proof.
  destruct (Shell.dispatch command m) as [r m'] eqn:H.
  by apply dispatch_same_session in H as (? & ? & ? & ?).
Qed.

End separation_further.

(** ** What a dispatch can raise *)

Section dispatch_further.

#[local] Hint Constructors opens : core.

Ltac blame :=
  match goal with
  | E : RedirectionManager.open_for_write ?f ?md ?m1 = (Raise ?e, ?m') |- _ =>
      exists f, md, m1; split; [by eauto|exact E]
  end.

Lemma handle_echo_raises r args m e m' :
  RedirectionManager.cmd_parts r = "echo" :: args →
  CommandHandler.handle_echo ("echo" :: args)
    (RedirectionManager.stdout_file r) (RedirectionManager.stdout_mode r)
    (RedirectionManager.stderr_file r) (RedirectionManager.stderr_mode r) m
  = (Raise e, m') →
  ∃ f md m1, opens r m f md m1 ∧
             RedirectionManager.open_for_write f md m1 = (Raise e, m').
Proof.
  intros Hc H. rewrite handle_echo_eq in H. unfold bind in H.
  destruct (truthy (RedirectionManager.stdout_file r)) as [g|] eqn:Hso.
  - destruct (RedirectionManager.open_for_write g _ m) as [[h|e0] m1] eqn:Hg;
      [|simplify_eq; blame].
    rewrite write_returns in H.
    destruct (truthy (RedirectionManager.stderr_file r)) as [f|] eqn:Hse; [|done].
    destruct (RedirectionManager.open_for_write f _ _) as [[h'|e0] m2] eqn:Hf;
      [done|simplify_eq; blame].
  - rewrite print_returns in H.
    destruct (truthy (RedirectionManager.stderr_file r)) as [f|] eqn:Hse; [|done].
    destruct (RedirectionManager.open_for_write f _ _) as [[h'|e0] m2] eqn:Hf;
      [done|simplify_eq; blame].
Qed.

Lemma handle_type_raises r name more m e m' :
  RedirectionManager.cmd_parts r = "type" :: name :: more →
  CommandHandler.handle_type Shell.builtins ("type" :: name :: more)
    (RedirectionManager.stdout_file r) (RedirectionManager.stdout_mode r) m
  = (Raise e, m') →
  ∃ f md m1, opens r m f md m1 ∧
             RedirectionManager.open_for_write f md m1 = (Raise e, m').
Proof.
  intros Hc H.
  destruct (handle_type_eq Shell.builtins name more (RedirectionManager.stdout_file r)
              (RedirectionManager.stdout_mode r) m) as [output Heq].
  rewrite Heq in H. clear Heq. unfold bind in H.
  destruct (truthy (RedirectionManager.stdout_file r)) as [f|] eqn:Hso; [|done].
  destruct (RedirectionManager.open_for_write f _ m) as [[h|e0] m1] eqn:Hf;
    [done|simplify_eq; blame].
Qed.

Lemma deliver_returns st handle data m :
  Shell.deliver st handle data m = (Ok tt, (Shell.deliver st handle data m).2).
Proof. by destruct handle. Qed.

Lemma subprocess_run_raises parts full so se m e m' :
  Shell.subprocess_run parts full so se m = (Raise e, m') →
  programs m full parts = Raise e ∧ m' = m.
Proof.
  unfold Shell.subprocess_run. unfold bind at 1.
  destruct (programs m full parts) as [out|e0]; [|intros; by simplify_eq].
  unfold bind. by rewrite deliver_returns, deliver_returns.
Qed.

Lemma run_external_raises r p0 args m e m' :
  RedirectionManager.cmd_parts r = p0 :: args → external p0 args →
  Shell.run_external (p0 :: args)
    (RedirectionManager.stdout_file r) (RedirectionManager.stderr_file r)
    (RedirectionManager.stdout_mode r) (RedirectionManager.stderr_mode r) m
  = (Raise e, m') →
  (∃ f md m1, opens r m f md m1 ∧
              RedirectionManager.open_for_write f md m1 = (Raise e, m')) ∨
  (∃ full, truthy (find_executable m p0) = Some full ∧
           programs m full (p0 :: args) = Raise e).
Proof.
  intros Hc Hx H. rewrite run_external_eq in H.
  destruct (truthy (find_executable m p0)) as [full|] eqn:Hfind.
  - unfold try_finally in H. unfold bind at 1 in H.
    destruct (truthy (RedirectionManager.stdout_file r)) as [g|] eqn:Hso.
    + unfold bind at 1 in H.
      destruct (RedirectionManager.open_for_write g _ m) as [[h|e0] m1] eqn:Hg;
        [|unfold ret in H; simplify_eq; left; blame].
      unfold ret at 1 in H. unfold bind at 1 in H.
      destruct (truthy (RedirectionManager.stderr_file r)) as [f|] eqn:Hse.
      * unfold bind at 1 in H.
        destruct (RedirectionManager.open_for_write f _ m1) as [[h'|e0] m2] eqn:Hf;
          [|unfold ret in H; simplify_eq; left; blame].
        unfold ret at 1 in H.
        destruct (Shell.subprocess_run _ _ _ _ m2) as [[[]|e0] m3] eqn:Hrun; [done|].
        unfold ret in H. simplify_eq.
        apply subprocess_run_raises in Hrun as [Hrun _].
        apply open_for_write_same_session in Hg as (_ & _ & Hg & _).
        apply open_for_write_same_session in Hf as (_ & _ & Hf & _).
        right. exists full. split; [done|]. congruence.
      * unfold ret at 1 in H.
        destruct (Shell.subprocess_run _ _ _ _ m1) as [[[]|e0] m3] eqn:Hrun; [done|].
        unfold ret in H. simplify_eq.
        apply subprocess_run_raises in Hrun as [Hrun _].
        apply open_for_write_same_session in Hg as (_ & _ & Hg & _).
        right. exists full. split; [done|]. congruence.
    + unfold ret at 1 in H. unfold bind at 1 in H.
      destruct (truthy (RedirectionManager.stderr_file r)) as [f|] eqn:Hse.
      * unfold bind at 1 in H.
        destruct (RedirectionManager.open_for_write f _ m) as [[h'|e0] m2] eqn:Hf;
          [|unfold ret in H; simplify_eq; left; blame].
        unfold ret at 1 in H.
        destruct (Shell.subprocess_run _ _ _ _ m2) as [[[]|e0] m3] eqn:Hrun; [done|].
        unfold ret in H. simplify_eq.
        apply subprocess_run_raises in Hrun as [Hrun _].
        apply open_for_write_same_session in Hf as (_ & _ & Hf & _).
        right. exists full. split; [done|]. congruence.
      * unfold ret at 1 in H.
        destruct (Shell.subprocess_run _ _ _ _ m) as [[[]|e0] m3] eqn:Hrun; [done|].
        unfold ret in H. simplify_eq.
        apply subprocess_run_raises in Hrun as [Hrun _].
        right. by exists full.
  - destruct (truthy (RedirectionManager.stderr_file r)) as [f|] eqn:Hse; [|done].
    unfold bind in H.
    destruct (RedirectionManager.open_for_write f _ m) as [[h|e0] m1] eqn:Hf;
      [done|simplify_eq; left; blame].
Qed.

(** X9. A dispatch raises only for one of these causes: the tokenizer
    fails ([ValueError]); the parser finds an operator without target or
    the command vector is empty ([IndexError]); the command is [exit]
    ([SystemExit(0)]); a call of [open_for_write] on a redirection target
    of the line raises; or the host fails to start the program the command
    resolves to, so that [subprocess.run] raises.  In the first three
    cases nothing has been written or opened.  (Writing through an opened
    file object and to the terminal is taken to succeed.) *)
Theorem dispatch_raises command m e m' :
  Shell.dispatch command m = (Raise e, m') →
  (m' = m ∧ ∃ msg, e = ValueError msg ∧ Shlex.split command = Raise e) ∨
  (m' = m ∧ e = IndexError ∧
   ∃ parts, Shlex.split command = Ok parts ∧
     (RedirectionManager.parse_redirection parts = Raise IndexError ∨
      ∃ r, RedirectionManager.parse_redirection parts = Ok r ∧
           RedirectionManager.cmd_parts r = [])) ∨
  (m' = m ∧ e = SystemExit 0 ∧
   ∃ parts r args, Shlex.split command = Ok parts ∧
     RedirectionManager.parse_redirection parts = Ok r ∧
     RedirectionManager.cmd_parts r = "exit" :: args) ∨
  (∃ parts r f md m1, Shlex.split command = Ok parts ∧
     RedirectionManager.parse_redirection parts = Ok r ∧
     opens r m f md m1 ∧
     RedirectionManager.open_for_write f md m1 = (Raise e, m')) ∨
  (∃ parts r p0 args full, Shlex.split command = Ok parts ∧
     RedirectionManager.parse_redirection parts = Ok r ∧
     RedirectionManager.cmd_parts r = p0 :: args ∧ external p0 args ∧
     truthy (find_executable m p0) = Some full ∧
     programs m full (p0 :: args) = Raise e).
Proof.
  intros H.
  destruct (Shlex.split command) as [parts|e0] eqn:Hsplit.
  2:{ unfold Shell.dispatch, bind, lift in H. rewrite Hsplit in H. simplify_eq.
      left. split; [done|].
      destruct (lex_raises _ _ _ _ _ Hsplit) as [msg ->]. by exists msg. }
  destruct (RedirectionManager.parse_redirection parts) as [r|e0] eqn:Hparse.
  2:{ unfold Shell.dispatch, bind, lift in H. rewrite Hsplit, Hparse in H. simplify_eq.
      right; left. pose proof (parse_raises _ _ Hparse) as ->.
      split; [done|]. split; [done|]. exists parts. by split; [|left]. }
  destruct (RedirectionManager.cmd_parts r) as [|p0 args] eqn:Hc.
  { rewrite (dispatch_parsed command parts r) in H by done. rewrite Hc in H.
    simplify_eq. right; left. split; [done|]. split; [done|].
    exists parts. split; [done|]. right. by exists r. }
  destruct (decide (p0 = "exit")) as [->|Hexit].
  { rewrite (dispatch_parsed command parts r) in H by done. rewrite Hc in H.
    rewrite bool_decide_true in H by done. simplify_eq.
    right; right; left. split; [done|]. split; [done|]. by exists parts, r, args. }
  destruct (decide (p0 = "echo")) as [->|Hecho].
  { rewrite (dispatch_echo command parts r args) in H by done.
    destruct (CommandHandler.handle_echo _ _ _ _ _ m) as [[b|e0] m2] eqn:He; [done|].
    simplify_eq. do 3 right. left.
    destruct (handle_echo_raises r args m e m' Hc He) as (f & md & m1 & ? & ?).
    by exists parts, r, f, md, m1. }
  destruct (decide (p0 = "type" ∧ args ≠ [])) as [[-> Hargs]|Htype].
  { destruct args as [|name more]; [done|].
    rewrite (dispatch_type command parts r name more) in H by done.
    destruct (CommandHandler.handle_type _ _ _ _ m) as [[b|e0] m2] eqn:He; [done|].
    simplify_eq. do 3 right. left.
    destruct (handle_type_raises r name more m e m' Hc He) as (f & md & m1 & ? & ?).
    by exists parts, r, f, md, m1. }
  assert (external p0 args) as Hx.
  { split; [done|]. split; [done|]. intros ->.
    destruct args as [|a args]; [done|]. destruct Htype. by split. }
  rewrite (dispatch_external command parts r p0 args) in H by done.
  destruct (run_external_raises r p0 args m e m' Hc Hx H)
    as [(f & md & m1 & ? & ?)|(full & ? & ?)].
  - do 3 right. left. by exists parts, r, f, md, m1.
  - do 4 right. by exists parts, r, p0, args, full.
Qed.

Lemma dispatch_raises_witness :
  Shell.dispatch "top > out.txt" broken
  = (Raise OSError, set_fs (insert "out.txt" (File false true EmptyString)) broken) ∧
  programs broken "/usr/bin/top" ["top"] = Raise OSError.
Proof.
  split; [by vm_compute|].
  destruct (dispatch_raises "top > out.txt" broken OSError
              (set_fs (insert "out.txt" (File false true EmptyString)) broken))
    as [(_ & msg & ? & _)|[(_ & ? & _)|[(_ & ? & _)|[H|H]]]];
    [by vm_compute|done..].
Defined.

End dispatch_further.

(** ** More on completion *)

Section complete_further.
Import Completer.
Variable builtins : list string.

Lemma scan_all_same_fs m1 m2 text dirs : ∀ ext,
  fs m1 = fs m2 → scan_all m1 text ext dirs = scan_all m2 text ext dirs.
Proof.
  intros ext H. revert ext. induction dirs as [|d dirs IH]; intros ext; [done|].
  simpl. assert (scan m1 text ext d = scan m2 text ext d) as ->.
  { unfold scan, Os.path_isdir, Os.listdir, Os.entries, Os.access_x, Os.stat.
    by rewrite H. }
  destruct (scan m2 text ext d); simpl; [apply IH|done].
Qed.

Lemma consulted_same_files text state m :
  same_files m (consulted builtins text state m).
Proof.
  unfold consulted. destruct (_ || _); [|by repeat split].
  rewrite candidates_spec. by repeat split.
Qed.

Lemma complete_machine text state m :
  (complete builtins text state m).2 = consulted builtins text state m ∨
  (complete builtins text state m).2 = rings (consulted builtins text state m).
Proof.
  rewrite complete_eq. cbv zeta.
  destruct (cache_matches (matches_cache (consulted builtins text state m)))
    as [|c1 [|c2 cs]]; [by right|by left|].
  repeat case_bool_decide; try (by left); try (by right).
  destruct (Py.getitem _ _); by left.
Qed.

(** X15. A completion request never changes the file system, the search
    path or the programs: it writes at most the bell to the terminal and
    renews at most the cache. *)
Theorem complete_keeps_files text state m :
  same_files m (complete builtins text state m).2 ∧
  (tty (complete builtins text state m).2 = tty m ∨
   tty (complete builtins text state m).2 = tty m ++ [(Stdout, bell)]).
Proof.
  pose proof (consulted_same_files text state m) as (? & ? & ? & ?).
  assert (tty (consulted builtins text state m) = tty m) as Ht.
  { unfold consulted. destruct (_ || _); [|done]. by rewrite candidates_spec. }
  destruct (complete_machine text state m) as [-> | ->].
  - split; [by repeat split|by left].
  - split; [by repeat split|]. right. simpl. by rewrite Ht.
Qed.

(** X16. Request 0 always scans anew and forgets the cache it finds.  A
    later request for the cached prefix answers from the cache alone:
    machines with the same cache get the same answer, whatever their file
    systems and search paths have become. *)
Theorem complete_uses_cache text state m :
  (∀ c, complete builtins text 0 (set_cache c m) = complete builtins text 0 m) ∧
  (state ≠ 0 → text = cache_text (matches_cache m) →
   ∀ m2, matches_cache m2 = matches_cache m →
         (complete builtins text state m2).1 = (complete builtins text state m).1 ∧
         matches_cache (complete builtins text state m2).2 = matches_cache m).
Proof.
  split.
  - intros c. rewrite !complete_eq. cbv zeta.
    rewrite !consulted_recomputed by by left.
    assert (candidates builtins (set_cache c m) text = candidates builtins m text)
      as ->.
    { unfold candidates, compute_matches, bind, modify.
      change (search_path (set_cache c m)) with (search_path m).
      rewrite (scan_all_same_fs (set_cache c m) m) by done.
      by destruct (scan_all_spec m text (search_path m) ∅) as (ext & -> & _). }
    reflexivity.
  - intros Hs Ht m2 Hm2.
    assert (consulted builtins text state m2 = m2) as H2.
    { apply consulted_kept; [done|]. by rewrite Hm2. }
    assert (consulted builtins text state m = m) as H1 by by apply consulted_kept.
    split.
    + rewrite !complete_eq. cbv zeta. rewrite H1, H2, Hm2.
      destruct (cache_matches (matches_cache m)) as [|c1 [|c2 cs]]; [done..|].
      repeat case_bool_decide; try done. by destruct (Py.getitem _ _).
    + destruct (complete_machine text state m2) as [-> | ->]; by rewrite H2.
Qed.

(** X17. [complete] raises exactly when two or more candidates are
    cached, the request index is not 0 and is at most the number of
    candidates (negative indices included); what it raises is then
    [TypeError] or [IndexError].  On request 0, with fewer than two
    candidates, and past the end it returns. *)
Theorem complete_raises_iff text state m :
  let n := Z.of_nat (length (cache_matches
                               (matches_cache (consulted builtins text state m)))) in
  (∀ e, (complete builtins text state m).1 = Raise e → e = TypeError ∨ e = IndexError) ∧
  ((∃ e, (complete builtins text state m).1 = Raise e) ↔ 2 ≤ n ∧ state ≠ 0 ∧ state ≤ n).
Proof.
  rewrite complete_eq. cbv zeta.
  destruct (cache_matches (matches_cache (consulted builtins text state m)))
    as [|c1 [|c2 cs]] eqn:Hm.
  - simpl. split; [done|]. split; [by intros [? ?]|lia].
  - simpl. split; [done|]. split; [by intros [? ?]|lia].
  - assert (2 ≤ Z.of_nat (length (c1 :: c2 :: cs))) as H2 by (simpl length; lia).
    remember (Z.of_nat (length (c1 :: c2 :: cs))) as n eqn:Hn.
    remember (c1 :: c2 :: cs) as l eqn:Hl. clear Hn Hl Hm.
    destruct (decide (state = 0)) as [H0|H0].
    { rewrite (bool_decide_true (state = 0)) by done.
      split; [by case_bool_decide|].
      split; [case_bool_decide; by intros [? ?]|]. tauto. }
    rewrite (bool_decide_false (state = 0)) by done.
    destruct (decide (state - 1 < n)) as [H1|H1].
    + rewrite (bool_decide_true (state - 1 < n)) by done.
      destruct (Py.getitem l state) eqn:Hg; cbn [fst].
      * split; [intros ? ?; simplify_eq; by left|].
        split; [intros _; lia|by eexists].
      * split; [intros ? ?; simplify_eq; right; by eapply getitem_raises|].
        split; [intros _; lia|by eexists].
    + rewrite (bool_decide_false (state - 1 < n)) by done. cbn [fst].
      split; [done|]. split; [by intros [? ?]|lia].
Qed.

Lemma rings_cache m : matches_cache (rings m) = matches_cache m.
Proof. done. Qed.

Lemma consulted_sound text state m :
  cache_sound (matches_cache m) →
  cache_sound (matches_cache (consulted builtins text state m)).
Proof.
  intros Hm. unfold consulted. destruct (_ || _); [|done].
  destruct (compute_matches_spec builtins text m) as (l & Heq & Hs & Hnd & Hel).
  rewrite Heq. simpl. split; [|by repeat split].
  unfold cache_coherent. simpl. apply Forall_forall. intros n Hn.
  apply startswith_is_prefix. apply Hel in Hn as [[_ ?]|[_ ?]]; done.
Qed.

Lemma complete_sound text state m :
  cache_sound (matches_cache m) →
  cache_sound (matches_cache (complete builtins text state m).2).
Proof.
  intros Hm. apply (consulted_sound text state) in Hm.
  destruct (complete_machine text state m) as [-> | ->]; by rewrite ?rings_cache.
Qed.

(** X18. Over any sequence of completion requests, starting from a cache
    that is sound (as the initial, empty cache is), the cache stays sound:
    its candidates start with its prefix, are sorted without duplicates,
    and its LCP is the longest common prefix of its candidates. *)
Theorem serve_keeps_cache_sound requests : ∀ m,
  cache_sound (matches_cache m) →
  cache_sound (matches_cache (serve builtins requests m)).
Proof.
  unfold serve. induction requests as [|[text state] requests IH]; intros m Hm; [done|].
  simpl. apply IH. by apply complete_sound.
Qed.

End complete_further.

Lemma complete_uses_cache_witness :
  (Completer.complete Shell.builtins "t" 3
     (set_fs (λ _, ∅) (Completer.complete Shell.builtins "t" 0 host).2)).1
  = Ok None.
Proof.
  destruct (proj2 (complete_uses_cache Shell.builtins "t" 3
                     (Completer.complete Shell.builtins "t" 0 host).2))
    with (m2 := set_fs (λ _, ∅) (Completer.complete Shell.builtins "t" 0 host).2)
    as [-> _]; [lia|by vm_compute|done|by vm_compute].
Defined.

Lemma serve_keeps_cache_sound_witness :
  cache_sound (matches_cache (serve Shell.builtins [("t", 0); ("t", 1); ("e", 5)] host)).
Proof.
  apply (serve_keeps_cache_sound Shell.builtins [("t", 0); ("t", 1); ("e", 5)] host).
  repeat split; constructor.
Defined.

(** ** The order of the search path *)

Section order_further.
Variable builtins : list string.

Lemma listed_same m1 m2 text n :
  fs m1 = fs m2 → (∀ d, d ∈ search_path m1 → d ∈ search_path m2) →
  listed m1 text n → listed m2 text n.
Proof.
  intros Hfs Hpath [(d & names & Hd & Hl & Hn & Hx) Hs]. split; [|done].
  exists d, names. split; [auto|].
  unfold Os.listdir, Os.entries, Os.access_x, Os.stat in *. by rewrite <- Hfs.
Qed.

(** X19. The candidates of a completion depend on the search path only as
    a set of directories: on hosts with the same files whose search paths
    name the same directories, in whatever order and however often, the
    candidate lists are equal. *)
Theorem candidates_ignore_path_order m1 m2 text :
  fs m1 = fs m2 →
  (∀ d, d ∈ search_path m1 ↔ d ∈ search_path m2) →
  candidates builtins m1 text = candidates builtins m2 text.
Proof.
  intros Hfs Hpath.
  destruct (compute_matches_spec builtins text m1) as (l1 & Heq1 & Hs1 & Hnd1 & Hel1).
  destruct (compute_matches_spec builtins text m2) as (l2 & Heq2 & Hs2 & Hnd2 & Hel2).
  unfold candidates. rewrite Heq1, Heq2. simpl.
  apply (StronglySorted_unique String.le); [done..|].
  apply NoDup_Permutation; [done..|].
  intros n. rewrite Hel1, Hel2. split; (intros [?|Hn]; [by left|right]).
  - apply (listed_same m1 m2); [done| |done]. intros d. apply Hpath.
  - apply (listed_same m2 m1); [done| |done]. intros d. apply Hpath.
Qed.

End order_further.

Lemma candidates_ignore_path_order_witness :
  candidates Shell.builtins (two_dirs "/a:/b") "t"
  = candidates Shell.builtins (two_dirs "/b:/a:/b") "t" ∧
  candidates Shell.builtins (two_dirs "/a:/b") "t" = ["tac"; "top"; "type"] ∧
  find_executable (two_dirs "/a:/b") "top" = Some "/a/top" ∧
  find_executable (two_dirs "/b:/a:/b") "top" = Some "/b/top".
Proof.
  split; [|by vm_compute].
  apply (candidates_ignore_path_order Shell.builtins (two_dirs "/a:/b")
           (two_dirs "/b:/a:/b") "t"); [done|].
  intros d. change (search_path (two_dirs "/a:/b")) with ["/a"; "/b"].
  change (search_path (two_dirs "/b:/a:/b")) with ["/b"; "/a"; "/b"].
  rewrite !elem_of_cons, !elem_of_nil. tauto.
Defined.
